(** * aws-lambda component: archive builder and deploy reconciler

    A shallow embedding of [utils.js] (the archive builder [packDir]/[pack],
    the backend wrappers and the readiness waiter) and of the component class
    [AwsLambda] ([default], [createAlias]), followed by the properties of the
    specification that were checked against them.

    Conventions
    - JS strings are [string]: sequences of code units, compared and sorted
      code unit by code unit.
    - JS numbers used as sizes and times are [Z].
    - Objects used as structs are records; a property that may be
      [undefined] has an [option] type.  The environment-variable object is a
      finite map.
    - Effects are explicit: the archive builder runs against a snapshot of the
      file system and returns the I/O it performed; the component runs in a
      state-and-exception monad over an abstract platform.
    - The archiver, the hash of a file, the backend, the role component and
      the clock are parameters.  Inputs of the wrong JS type, a write that
      fails and a file that vanishes while it is packed are not modelled. *)

From Stdlib Require Import ZArith Ascii String.
From stdpp Require Import base list sorting strings gmap.

Local Open Scope Z_scope.

(** ** Outcomes of a JavaScript computation *)

(** Values a JS [throw] (or a rejected promise) carries in this program. *)
Inductive exn : Type :=
  | Error (message : string)             (* new Error(message) *)
  | TypeError (message : string)         (* raised by the engine *)
  | FsError (code : string) (path : string)   (* raised by fs *)
  | AwsError (code : string) (message : string) (* rejected by the SDK, has .code *)
  | ErrorOf (cause : exn).               (* Error(e): a fresh Error, no .code *)

(** [Return] and [Throw] are the two ways a call ends; [OutOfFuel] is not a JS
    outcome, it marks a model run whose loop budget was too small. *)
Inductive outcome (A : Type) : Type :=
  | Return (a : A)
  | Throw (e : exn)
  | OutOfFuel.
Arguments Return {A} a.
Arguments Throw {A} e.
Arguments OutOfFuel {A}.

(** ** Platform functions used by [utils.js]

    Node's [path] (POSIX flavour), [String.prototype.split]/[replace],
    [Array.prototype.sort] and ramda's [last]/[contains], with the behaviour
    their documentation gives them. *)
Module Js.

Definition slash : ascii := "/"%char.
Definition dot : ascii := "."%char.

(** The one-character string holding a double quote (code unit 34). *)
Definition dquote : string :=
  String (Ascii false true false false false true false false) EmptyString.

(** [s.split(sep)] for a one-character separator: never the empty array. *)
Fixpoint split (sep : ascii) (s : string) : list string :=
  match s with
  | EmptyString => [EmptyString]
  | String c s' =>
      if Ascii.eqb c sep then EmptyString :: split sep s'
      else match split sep s' with
           | [] => [String c EmptyString]
           | seg :: segs => String c seg :: segs
           end
  end.

(** [parts.join(sep)]. *)
Fixpoint join (sep : string) (parts : list string) : string :=
  match parts with
  | [] => EmptyString
  | [p] => p
  | p :: rest => p +:+ sep +:+ join sep rest
  end.

(** [s.replace(pattern, '')] with a string pattern: the first occurrence of
    [pattern] is removed, the rest of [s] is kept. *)
Fixpoint replace_first (pattern s : string) : string :=
  if String.prefix pattern s
  then String.substring (String.length pattern)
                        (String.length s - String.length pattern)%nat s
  else match s with
       | EmptyString => EmptyString
       | String c s' => String c (replace_first pattern s')
       end.

(** The default comparison of [Array.prototype.sort] on strings. *)
Definition str_le : relation string := λ a b, String.leb a b = true.

Global Instance str_le_dec : RelDecision str_le.
Proof. intros a b. unfold str_le. apply _. Defined.

(** [arr.sort()]: the sorted rearrangement of [arr]. *)
Definition sort (arr : list string) : list string := merge_sort str_le arr.

(** One step of Node's [normalizeString]: [res] holds the segments kept so
    far, [seg] is the next segment of the path. *)
Definition normalize_step (allowAboveRoot : bool)
    (res : list string) (seg : string) : list string :=
  if bool_decide (seg = "" ∨ seg = ".") then res
  else if bool_decide (seg = "..") then
    match last res with
    | Some top =>
        if bool_decide (top = "..")
        then (if allowAboveRoot then res ++ [".."] else res)
        else removelast res
    | None => if allowAboveRoot then [".."] else []
    end
  else res ++ [seg].

Definition starts_with_slash (p : string) : bool :=
  match p with
  | String c _ => Ascii.eqb c slash
  | EmptyString => false
  end.

Fixpoint ends_with_slash (p : string) : bool :=
  match p with
  | EmptyString => false
  | String c EmptyString => Ascii.eqb c slash
  | String _ p' => ends_with_slash p'
  end.

(** [path.normalize(p)] (POSIX). *)
Definition path_normalize (p : string) : string :=
  if bool_decide (p = "") then "."
  else
    let isAbsolute := starts_with_slash p in
    let trailingSeparator := ends_with_slash p in
    let body :=
      join "/" (fold_left (normalize_step (negb isAbsolute)) (split slash p) []) in
    if bool_decide (body = "") then
      (if isAbsolute then "/" else if trailingSeparator then "./" else ".")
    else
      (if isAbsolute then "/" else "") +:+ body
        +:+ (if trailingSeparator then "/" else "").

(** [path.join(...args)] (POSIX): the non-empty arguments joined by a slash,
    then normalized. *)
Definition path_join (args : list string) : string :=
  match filter (λ a, a ≠ "") args with
  | [] => "."
  | parts => path_normalize (join "/" parts)
  end.

(** [path.basename(p)] (POSIX): the last non-empty segment of [p]. *)
Definition path_basename (p : string) : string :=
  match last (filter (λ seg, seg ≠ "") (split slash p)) with
  | Some seg => seg
  | None => ""
  end.

End Js.


(** ** The archive builder ([utils.js], lines 9-79 and 260-278) *)
Module Archive.
Import Js.

Definition VALID_FORMATS : list string := ["zip"; "tar"].

(** [contains(format, VALID_FORMATS)]; [format] is [undefined] only for an
    empty array, which [split] never returns. *)
Definition isValidFormat (format : option string) : bool :=
  match format with
  | Some f => bool_decide (f ∈ VALID_FORMATS)
  | None => false
  end.

(** What [readdirSync] and [statSync(...).isDirectory()] show of a path:
    something that is not a directory, or a directory with its entries in
    the order the file system enumerates them. *)
#[warnings="-register-all"]
Inductive dirent : Type :=
  | File
  | Directory (files : list (string * dirent)).

(** [getAllFiles(dirPath, arrayOfFiles)], [dir] being what the file system
    holds at [dirPath].  It is only ever called on directories: [packDir]
    reaches the [File] case never, [readdirSync] throws there. *)
Fixpoint getAllFiles (dirPath : string) (dir : dirent)
    (arrayOfFiles : list string) : list string :=
  match dir with
  | File => arrayOfFiles
  | Directory files =>
      (fix forEach (files : list (string * dirent)) (arrayOfFiles : list string) :=
         match files with
         | [] => arrayOfFiles
         | (file, st) :: files' =>
             forEach files'
               match st with
               | Directory _ =>
                   getAllFiles (dirPath +:+ "/" +:+ file) st arrayOfFiles
               | File => arrayOfFiles ++ [path_join [dirPath; "/"; file]]
               end
         end) files arrayOfFiles
  end.

(** What one directory entry adds to the list of [getAllFiles]. *)
Definition entry_files (dirPath : string) (entry : string * dirent) : list string :=
  match entry.2 with
  | Directory _ => getAllFiles (dirPath +:+ "/" +:+ entry.1) entry.2 []
  | File => [path_join [dirPath; "/"; entry.1]]
  end.

(** Two enumerations of one directory tree: the same names and kinds at
    every level, the entries of a directory in any order. *)
Inductive same_tree : dirent → dirent → Prop :=
  | same_File : same_tree File File
  | same_Directory files1 files2 :
      same_files files1 files2 → same_tree (Directory files1) (Directory files2)
with same_files : list (string * dirent) → list (string * dirent) → Prop :=
  | same_nil : same_files [] []
  | same_skip file st1 st2 files1 files2 :
      same_tree st1 st2 → same_files files1 files2 →
      same_files ((file, st1) :: files1) ((file, st2) :: files2)
  | same_swap entry1 entry2 files :
      same_files (entry1 :: entry2 :: files) (entry2 :: entry1 :: files)
  | same_trans files1 files2 files3 :
      same_files files1 files2 → same_files files2 files3 →
      same_files files1 files3.

Scheme same_tree_mut := Minimality for same_tree Sort Prop
  with same_files_mut := Minimality for same_files Sort Prop.

(** A snapshot of the file system: the tree found at a path ([None] when
    nothing is there) and the bytes a read stream on a path delivers. *)
Record FileSystem : Type := {
  fs_stat : string → option dirent;
  fs_read : string → list Byte.byte
}.

(** The [{ input, output }] objects of [packDir]. *)
Record FileSpec : Type := { input : string; output : string }.

(** One [archive.append(stream, { name, date })]; [date] is in milliseconds
    since the Unix epoch. *)
Record Entry : Type := {
  source : list Byte.byte;
  name : string;
  date : Z
}.

(** The I/O [packDir] performs, in order.  A failing write and a file that
    vanishes between the enumeration and the read are not modelled. *)
Inductive io : Type :=
  | IoReaddir (dirPath : string)             (* getAllFiles: readdirSync, statSync *)
  | IoConsoleLog (files : list FileSpec)
  | IoCreateWriteStream (path : string)
  | IoCreateReadStream (path : string)
  | IoAppend (name : string) (date : Z)      (* archive.append(stream, { name, date }) *)
  | IoFinalize                               (* archive.finalize() *)
  | IoClose (path : string) (content : list Byte.byte). (* output closed, holding content *)

Definition invalid_format_message : string :=
  "Please provide a valid format. Either a " +:+ dquote +:+ "zip" +:+ dquote
    +:+ " or a " +:+ dquote +:+ "tar" +:+ dquote.

(** [new Date(0)]. *)
Definition epoch : Z := 0.

(** Lines 41-46: the sorted file list with the entry name of each file. *)
Definition packDir_files (inputDirPath : string) (dir : dirent) : list FileSpec :=
  map (λ file, {| input := file; output := replace_first inputDirPath file |})
      (sort (getAllFiles inputDirPath dir [])).

(** Lines 62-71: the entries appended to the archive, files first, then the
    [include]d shims under their base names. *)
Definition packDir_entries (fs : FileSystem) (files : list FileSpec)
    (include : option (list string)) : list Entry :=
  map (λ file, {| source := fs_read fs (input file);
                  name := output file; date := epoch |}) files
  ++ match include with
     | Some shims =>
         map (λ file, {| source := fs_read fs file;
                         name := path_basename file; date := epoch |}) shims
     | None => []
     end.

Section Builder.

(** [archiver(format, { zlib: { level: 9 } })] fed with the entries in
    order and finalized: the bytes of the archive. *)
Variable archiver : string → list Entry → list Byte.byte.

(** [packDir(inputDirPath, outputFilePath, include, exclude)]: the I/O
    performed and how the returned promise settles.  [None] stands for
    [null] in [include] and [exclude].  The run described is that of a call
    whose read streams all deliver and whose archiver raises no error; what
    the promise does once a stream or the archiver fails is not described. *)
Definition packDir (fs : FileSystem) (inputDirPath outputFilePath : string)
    (include exclude : option (list string)) : list io * outcome string :=
  let format := last (split dot outputFilePath) in
  match format with
  | Some fmt =>
      if negb (isValidFormat format) then
        ([], Throw (Error invalid_format_message))
      else
        let patterns :=
          "**" :: match exclude with
                  | Some ex => map (λ excludedItem, "!" +:+ excludedItem) ex
                  | None => []
                  end in
        match fs_stat fs inputDirPath with
        | Some (Directory _ as dir) =>
            let files := packDir_files inputDirPath dir in
            let entries := packDir_entries fs files include in
            ([IoReaddir inputDirPath; IoConsoleLog files;
              IoCreateWriteStream outputFilePath]
             ++ flat_map (λ file, [IoCreateReadStream (input file);
                                   IoAppend (output file) epoch]) files
             ++ match include with
                | Some shims =>
                    flat_map (λ file, [IoCreateReadStream file;
                                       IoAppend (path_basename file) epoch]) shims
                | None => []
                end
             ++ [IoFinalize; IoClose outputFilePath (archiver fmt entries)],
             Return outputFilePath)
        | Some File => ([IoReaddir inputDirPath], Throw (FsError "ENOTDIR" inputDirPath))
        | None => ([IoReaddir inputDirPath], Throw (FsError "ENOENT" inputDirPath))
        end
  | None => ([], Throw (Error invalid_format_message))
  end.

(** [utils.isArchivePath] of @serverless/core and [path.resolve]. *)
Variable isArchivePath : string → bool.
Variable path_resolve : string → string.

(** [pack(code, shims, packDeps)]; [tmpdir] is [os.tmpdir()] and [random]
    the string [Math.random().toString(36).substring(6)]. *)
Definition pack (tmpdir random : string) (fs : FileSystem)
    (code : string) (shims : list string) (packDeps : bool)
    : list io * outcome string :=
  if isArchivePath code then ([], Return (path_resolve code))
  else
    let exclude := if negb packDeps then ["node_modules/**"] else [] in
    let outputFilePath := path_join [tmpdir; random +:+ ".zip"] in
    packDir fs code outputFilePath (Some shims) (Some exclude).

End Builder.

(** The archive a run left on disk, if it got that far. *)
Definition artifact (run : list io * outcome string) : option (list Byte.byte) :=
  match last run.1 with
  | Some (IoClose _ content) => Some content
  | _ => None
  end.

(** The entries a run appended to the archive, in order: name and date. *)
Definition appended (run : list io * outcome string) : list (string * Z) :=
  omap (λ e, match e with
             | IoAppend name date => Some (name, date)
             | _ => None
             end) run.1.

End Archive.

(** ** Shapes exchanged with the AWS SDK *)
Module Aws.

Record Tracing : Type := { Mode : string }.
Record Vpc : Type := { SubnetIds : list string; SecurityGroupIds : list string }.

(** Where the code of a function comes from: [ZipFile] bytes sent inline, or
    an [S3Bucket]/[S3Key] reference. *)
Inductive CodeSource : Type :=
  | ZipFile (content : list Byte.byte)
  | S3 (S3Bucket S3Key : string).

(** [new AwsSdkLambda({ region, credentials, maxRetries: 10 })]. *)
Record Client : Type := { region : option string; maxRetries : Z }.

(** The [params] object of [createLambda].  An array element is [None] when
    the expression put there evaluates to [undefined]. *)
Module CreateFunction.
Record params : Type := {
  FunctionName : string;
  Code : CodeSource;
  Description : string;
  Handler : string;
  MemorySize : Z;
  Publish : bool;
  Role : string;
  Runtime : string;
  Architectures : list (option string);
  Timeout : Z;
  Environment : gmap string string;   (* Environment.Variables *)
  VpcConfig : option Vpc;
  TracingConfig : Tracing;
  Layers : option (list string)
}.
End CreateFunction.

(** The [functionConfigParams] object of [updateLambdaConfig]. *)
Module UpdateFunctionConfiguration.
Record params : Type := {
  FunctionName : string;
  Description : string;
  Handler : string;
  MemorySize : Z;
  Role : string;
  Runtime : string;
  Architectures : list (option string);
  Timeout : Z;
  Environment : gmap string string;   (* Environment.Variables *)
  VpcConfig : option Vpc;
  Layers : option (list string)
}.
End UpdateFunctionConfiguration.

(** The [functionCodeParams] object of [updateLambdaCode]. *)
Module UpdateFunctionCode.
Record params : Type := {
  FunctionName : string;
  Publish : bool;
  Code : CodeSource                   (* ZipFile, or S3Bucket and S3Key *)
}.
End UpdateFunctionCode.

Module CreateAlias.
Record params : Type := {
  FunctionName : option string;
  Name : string;
  FunctionVersion : string
}.
End CreateAlias.

Record EnvironmentResponse : Type := { Variables : option (gmap string string) }.

(** The function description the backend answers with; the fields this
    program reads. *)
Record FunctionConfiguration : Type := {
  FunctionName : string;
  FunctionArn : string;
  Description : string;
  Timeout : Z;
  Runtime : string;
  Role : string;
  Handler : string;
  MemorySize : Z;
  CodeSha256 : string;
  Environment : option EnvironmentResponse;
  State : string;
  LastUpdateStatus : string
}.

(** The response of [getFunction]. *)
Record GetFunctionResponse : Type := { Configuration : FunctionConfiguration }.

(** The calls this program makes on the backend. *)
Inductive request : Type :=
  | CallCreateFunction (p : CreateFunction.params)
  | CallUpdateFunctionCode (p : UpdateFunctionCode.params)
  | CallUpdateFunctionConfiguration (p : UpdateFunctionConfiguration.params)
  | CallGetFunctionConfiguration (FunctionName : string)
  | CallGetFunction (FunctionName : string)
  | CallDeleteFunction (FunctionName : string)
  | CallCreateAlias (p : CreateAlias.params).

(** The calls that change the remote function. *)
Definition mutating (r : request) : bool :=
  match r with
  | CallCreateFunction _ | CallUpdateFunctionCode _
  | CallUpdateFunctionConfiguration _ | CallDeleteFunction _
  | CallCreateAlias _ => true
  | CallGetFunctionConfiguration _ | CallGetFunction _ => false
  end.

End Aws.

(** ** The configuration objects of the component *)

(** [{ arn }]: the role reference kept in [config.role] and in the observed
    description. *)
Module Role.
Record t : Type := { arn : string }.
Global Instance eq_dec : EqDecision t.
Proof. solve_decision. Defined.
End Role.

Module Layer.
Record t : Type := { arn : option string }.
End Layer.

(** The inputs of the role component. *)
Module RoleInputs.
Record t : Type := {
  service : string;
  policy : Role.t;                      (* { arn } of the policy *)
  region : string
}.
End RoleInputs.

(** [mergeDeepRight(defaults, inputs)], line 57: every key of [defaults] is
    present; [name], [role], [layer], [vpcConfig], [architecture] and a defined
    [bucket] are there only when the inputs carry them. *)
Module Settings.
Record t : Type := {
  name : option string;
  description : string;
  memory : Z;
  timeout : Z;
  code : string;
  bucket : option string;
  shims : list string;
  handler : string;
  runtime : string;
  architectures : list string;
  architecture : option string;
  env : gmap string string;
  region : string;
  tracingConfig : Aws.Tracing;
  role : option RoleInputs.t;
  layer : option Layer.t;
  vpcConfig : option Aws.Vpc
}.
End Settings.

(** The [config] object once lines 58-94 have assigned [name], [role],
    [zipPath] and [hash]; [arn] is assigned at line 101 or 105. *)
Module Config.
Record t : Type := {
  settings : Settings.t;
  name : string;
  role : Role.t;
  zipPath : string;
  hash : string;
  arn : option string
}.
End Config.
Coercion Config.settings : Config.t >-> Settings.t.

(** The object [getLambda] returns.  Its literal has the first ten properties;
    [architectures] is what reading [prevLambda.architectures] gives, [None]
    for [undefined]. *)
Module Observed.
Record t : Type := {
  name : string;
  description : string;
  timeout : Z;
  runtime : string;
  role : Role.t;
  handler : string;
  memory : Z;
  hash : string;
  env : option (gmap string string);
  arn : string;
  architectures : option (list string)
}.
End Observed.

(** [pick(keys, _)] in [configChanged]: the eight compared properties. *)
Module Compared.
Record t : Type := {
  description : string;
  runtime : string;
  role : Role.t;
  handler : string;
  memory : Z;
  timeout : Z;
  env : option (gmap string string);
  hash : string
}.
Global Instance eq_dec : EqDecision t.
Proof. solve_decision. Defined.
End Compared.

(** [pick(outputsList, config)]: the baseline saved in [this.state]. *)
Module Outputs.
Record t : Type := {
  name : string;
  hash : string;
  description : string;
  memory : Z;
  timeout : Z;
  code : string;
  bucket : option string;
  shims : list string;
  handler : string;
  runtime : string;
  architectures : list string;
  env : gmap string string;
  role : Role.t;
  layer : option Layer.t;
  arn : option string;
  region : string
}.
End Outputs.

(** ** The component and its platform *)
Module AwsLambda.
Import Js.

(** What the component does that an observer can see, in order. *)
Inductive event : Type :=
  | Status (message : string)                  (* this.context.status *)
  | Debug (message : string)                   (* this.context.debug *)
  | ConsoleError (e : exn)                     (* console.error *)
  | Load (component : string)                  (* this.load *)
  | AwsIamRole (inputs : RoleInputs.t)         (* the loaded role component, called *)
  | Pack (e : Archive.io)                      (* I/O of the archive builder *)
  | HashFile (path : string)                   (* utils.hashFile *)
  | ReadFile (path : string)                   (* fs-extra readFile *)
  | Call (lambda : Aws.Client) (r : Aws.request)
  | SetTimeout (ms : Z)
  | Save (state : option Outputs.t).           (* this.save() *)

(** Everything outside the program, over a world [W]: the host framework,
    the local machine, the backend and the clock.  A call on the backend
    answers [inl e] when its promise is rejected with [e].  [save] is taken
    to go through: a run in which [this.save()] is rejected is not
    described. *)
Record Platform (W : Type) : Type := {
  resourceId : W → string * W;
  load : string → W → (exn + unit) * W;
  awsIamRole : RoleInputs.t → W → (exn + Role.t) * W;
  save : option Outputs.t → W → W;
  fileSystem : W → Archive.FileSystem;
  tmpdir : W → string;
  random : W → string * W;            (* Math.random().toString(36).substring(6) *)
  commit : list Archive.io → W → W;   (* the file system after that I/O *)
  readFile : string → W → exn + list Byte.byte;
  hashFile : string → W → exn + string;
  archiver : string → list Archive.Entry → list Byte.byte;
  isArchivePath : string → bool;
  path_resolve : string → string;
  lambda_createFunction :
    Aws.Client → Aws.CreateFunction.params → W → (exn + Aws.FunctionConfiguration) * W;
  lambda_updateFunctionCode :
    Aws.Client → Aws.UpdateFunctionCode.params → W → (exn + Aws.FunctionConfiguration) * W;
  lambda_updateFunctionConfiguration :
    Aws.Client → Aws.UpdateFunctionConfiguration.params → W
    → (exn + Aws.FunctionConfiguration) * W;
  lambda_getFunctionConfiguration :
    Aws.Client → string → W → (exn + Aws.FunctionConfiguration) * W;
  lambda_getFunction : Aws.Client → string → W → (exn + Aws.GetFunctionResponse) * W;
  lambda_deleteFunction : Aws.Client → string → W → (exn + unit) * W;
  lambda_createAlias : Aws.Client → Aws.CreateAlias.params → W → (exn + unit) * W;
  now : W → Z;                        (* new Date().getTime() *)
  setTimeout : Z → W → W              (* await new Promise(r => setTimeout(r, ms)) *)
}.
Arguments resourceId {W} _. Arguments load {W} _.
Arguments awsIamRole {W} _. Arguments save {W} _.
Arguments fileSystem {W} _. Arguments tmpdir {W} _. Arguments random {W} _.
Arguments commit {W} _. Arguments readFile {W} _. Arguments hashFile {W} _.
Arguments archiver {W} _. Arguments isArchivePath {W} _.
Arguments path_resolve {W} _. Arguments lambda_createFunction {W} _.
Arguments lambda_updateFunctionCode {W} _. Arguments lambda_updateFunctionConfiguration {W} _.
Arguments lambda_getFunctionConfiguration {W} _. Arguments lambda_getFunction {W} _.
Arguments lambda_deleteFunction {W} _. Arguments lambda_createAlias {W} _.
Arguments now {W} _. Arguments setTimeout {W} _.

(** The component instance while it runs: the world, [this.state] ([None]
    for the empty object) and what it did so far. *)
Record Instance (W : Type) : Type := {
  world : W;
  state : option Outputs.t;
  log : list event
}.
Arguments world {W} _. Arguments state {W} _. Arguments log {W} _.

(** An [async] function of the component. *)
Definition M (W A : Type) : Type := Instance W → outcome A * Instance W.

Global Instance M_ret {W} : MRet (M W) := λ A a this, (Return a, this).

Global Instance M_bind {W} : MBind (M W) := λ A B f m this,
  match m this with
  | (Return a, this') => f a this'
  | (Throw e, this') => (Throw e, this')
  | (OutOfFuel, this') => (OutOfFuel, this')
  end.

Definition throw {W A} (e : exn) : M W A := λ this, (Throw e, this).

Definition out_of_fuel {W A} : M W A := λ this, (OutOfFuel, this).

(** [try { body } catch (e) { handler }]. *)
Definition try_catch {W A} (body : M W A) (handler : exn → M W A) : M W A :=
  λ this,
    match body this with
    | (Throw e, this') => handler e this'
    | settled => settled
    end.

Definition emit {W} (ev : event) : M W unit := λ this,
  (Return tt, {| world := world this; state := state this; log := log this ++ [ev] |}).

(** An effect on the world that may throw. *)
Definition perform {W A} (op : W → (exn + A) * W) : M W A := λ this,
  let '(answer, w) := op (world this) in
  (match answer with inl e => Throw e | inr a => Return a end,
   {| world := w; state := state this; log := log this |}).

Definition get_state {W} : M W (option Outputs.t) := λ this, (Return (state this), this).

Definition set_state {W} (s : option Outputs.t) : M W unit := λ this,
  (Return tt, {| world := world this; state := s; log := log this |}).

(** A string that may be [undefined], seen as a condition: [Some s] when
    it is truthy (defined and not empty). *)
Definition truthy (s : option string) : option string :=
  match s with
  | Some s => if bool_decide (s = "") then None else Some s
  | None => None
  end.

Definition is_truthy (s : option string) : bool :=
  match truthy s with
  | Some _ => true
  | None => false
  end.

(** [e.code]. *)
Definition exn_code (e : exn) : option string :=
  match e with
  | AwsError code _ => Some code
  | _ => None
  end.

Definition undefined_index_message : string :=
  "Cannot read properties of undefined (reading '0')".

(** The messages [default] hands to [this.context.debug]. *)
Definition creating_message (config : Config.t) : string :=
  "Creating lambda " +:+ Config.name config +:+ " in the "
    +:+ Settings.region config +:+ " region.".

Definition updating_message (config : Config.t) : string :=
  "Updating " +:+ Config.name config +:+ " lambda config.".

Definition deployed_message (config : Config.t) : string :=
  "Successfully deployed lambda " +:+ Config.name config +:+ " in the "
    +:+ Settings.region config +:+ " region.".

Section Component.
Context {W : Type} (P : Platform W).

Definition status (message : string) : M W unit := emit (Status message).
Definition debug (message : string) : M W unit := emit (Debug message).

(** A call on the SDK client [lambda]. *)
Definition call {A} (lambda : Aws.Client) (r : Aws.request)
    (op : W → (exn + A) * W) : M W A :=
  emit (Call lambda r);; perform op.

(** *** utils.js *)

(** The [Layers] key: set only under [if (layer && layer.arn)]. *)
Definition layers_of (layer : option Layer.t) : option (list string) :=
  match layer with
  | Some layer =>
      match truthy (Layer.arn layer) with
      | Some arn => Some [arn]
      | None => None
      end
  | None => None
  end.

(** [params.Code] of [createLambda], the code keys of [updateLambdaCode]. *)
Definition code_source (zipPath : string) (bucket : option string)
    : M W Aws.CodeSource :=
  match truthy bucket with
  | Some bucket => mret (Aws.S3 bucket (path_basename zipPath))
  | None =>
      emit (ReadFile zipPath);;
      content ← perform (λ w, (readFile P zipPath w, w));
      mret (Aws.ZipFile content)
  end.

(** The [params] object [createLambda] sends, [Code] being its code
    keys. *)
Definition createLambda_params (config : Config.t) (Code : Aws.CodeSource)
    : Aws.CreateFunction.params := {|
  Aws.CreateFunction.FunctionName := Config.name config;
  Aws.CreateFunction.Code := Code;
  Aws.CreateFunction.Description := Settings.description config;
  Aws.CreateFunction.Handler := Settings.handler config;
  Aws.CreateFunction.MemorySize := Settings.memory config;
  Aws.CreateFunction.Publish := true;
  Aws.CreateFunction.Role := Role.arn (Config.role config);
  Aws.CreateFunction.Runtime := Settings.runtime config;
  Aws.CreateFunction.Architectures := [Settings.architecture config];
  Aws.CreateFunction.Timeout := Settings.timeout config;
  Aws.CreateFunction.Environment := Settings.env config;
  Aws.CreateFunction.VpcConfig := Settings.vpcConfig config;
  Aws.CreateFunction.TracingConfig := Settings.tracingConfig config;
  Aws.CreateFunction.Layers := layers_of (Settings.layer config)
|}.

(** [createLambda({ lambda, ...config })]: [{ arn, hash }]. *)
Definition createLambda (lambda : Aws.Client) (config : Config.t)
    : M W (string * string) :=
  Code ← code_source (Config.zipPath config) (Settings.bucket config);
  let params := createLambda_params config Code in
  res ← call lambda (Aws.CallCreateFunction params) (lambda_createFunction P lambda params);
  mret (Aws.FunctionArn res, Aws.CodeSha256 res).

(** The [functionConfigParams] object of [updateLambdaConfig]. *)
Definition updateLambdaConfig_params (config : Config.t)
    : Aws.UpdateFunctionConfiguration.params := {|
  Aws.UpdateFunctionConfiguration.FunctionName := Config.name config;
  Aws.UpdateFunctionConfiguration.Description := Settings.description config;
  Aws.UpdateFunctionConfiguration.Handler := Settings.handler config;
  Aws.UpdateFunctionConfiguration.MemorySize := Settings.memory config;
  Aws.UpdateFunctionConfiguration.Role := Role.arn (Config.role config);
  Aws.UpdateFunctionConfiguration.Runtime := Settings.runtime config;
  Aws.UpdateFunctionConfiguration.Architectures := [Settings.architecture config];
  Aws.UpdateFunctionConfiguration.Timeout := Settings.timeout config;
  Aws.UpdateFunctionConfiguration.Environment := Settings.env config;
  Aws.UpdateFunctionConfiguration.VpcConfig := Settings.vpcConfig config;
  Aws.UpdateFunctionConfiguration.Layers := layers_of (Settings.layer config)
|}.

(** [updateLambdaConfig({ lambda, ...config })]: [{ arn, hash }]. *)
Definition updateLambdaConfig (lambda : Aws.Client) (config : Config.t)
    : M W (string * string) :=
  let functionConfigParams := updateLambdaConfig_params config in
  res ← call lambda (Aws.CallUpdateFunctionConfiguration functionConfigParams)
             (lambda_updateFunctionConfiguration P lambda functionConfigParams);
  mret (Aws.FunctionArn res, Aws.CodeSha256 res).

(** [updateLambdaCode({ lambda, ...config })]: the function ARN. *)
Definition updateLambdaCode (lambda : Aws.Client) (config : Config.t)
    : M W string :=
  Code ← code_source (Config.zipPath config) (Settings.bucket config);
  let functionCodeParams := {|
    Aws.UpdateFunctionCode.FunctionName := Config.name config;
    Aws.UpdateFunctionCode.Publish := true;
    Aws.UpdateFunctionCode.Code := Code
  |} in
  res ← call lambda (Aws.CallUpdateFunctionCode functionCodeParams)
             (lambda_updateFunctionCode P lambda functionCodeParams);
  mret (Aws.FunctionArn res).

(** The object literal [getLambda] returns for the response [res]. *)
Definition observed_of (res : Aws.FunctionConfiguration) : Observed.t := {|
  Observed.name := Aws.FunctionName res;
  Observed.description := Aws.Description res;
  Observed.timeout := Aws.Timeout res;
  Observed.runtime := Aws.Runtime res;
  Observed.role := {| Role.arn := Aws.Role res |};
  Observed.handler := Aws.Handler res;
  Observed.memory := Aws.MemorySize res;
  Observed.hash := Aws.CodeSha256 res;
  Observed.env :=
    match Aws.Environment res with
    | Some environment => Aws.Variables environment
    | None => Some ∅
    end;
  Observed.arn := Aws.FunctionArn res;
  Observed.architectures := None      (* no such property in the literal *)
|}.

(** [getLambda({ lambda, name })]: [None] is [null]. *)
Definition getLambda (lambda : Aws.Client) (name : string)
    : M W (option Observed.t) :=
  try_catch
    (res ← call lambda (Aws.CallGetFunctionConfiguration name)
                (lambda_getFunctionConfiguration P lambda name);
     mret (Some (observed_of res)))
    (λ e, if bool_decide (exn_code e = Some "ResourceNotFoundException")
          then mret None
          else throw e).

(** [deleteLambda({ lambda, name })]. *)
Definition deleteLambda (lambda : Aws.Client) (name : string) : M W unit :=
  try_catch
    (call lambda (Aws.CallDeleteFunction name) (lambda_deleteFunction P lambda name))
    (λ error, if bool_decide (exn_code error ≠ Some "ResourceNotFoundException")
              then throw error
              else mret tt).

(** [configChanged(prevLambda, lambda)]. *)
Definition configChanged (prevLambda : Observed.t) (lambda : Config.t) : bool :=
  let inputs := {|
    Compared.description := Settings.description lambda;
    Compared.runtime := Settings.runtime lambda;
    Compared.role := {| Role.arn := Role.arn (Config.role lambda) |};
    Compared.handler := Settings.handler lambda;
    Compared.memory := Settings.memory lambda;
    Compared.timeout := Settings.timeout lambda;
    Compared.env := Some (Settings.env lambda);
    Compared.hash := Config.hash lambda
  |} in
  let prevInputs := {|
    Compared.description := Observed.description prevLambda;
    Compared.runtime := Observed.runtime prevLambda;
    Compared.role := Observed.role prevLambda;
    Compared.handler := Observed.handler prevLambda;
    Compared.memory := Observed.memory prevLambda;
    Compared.timeout := Observed.timeout prevLambda;
    Compared.env := Observed.env prevLambda;
    Compared.hash := Observed.hash prevLambda
  |} in
  negb (bool_decide (inputs = prevInputs)).

Definition waitDurationMillis : Z := 600000.

(** The readiness test of [waitUntilReady]. *)
Definition ready (res : Aws.GetFunctionResponse) : bool :=
  bool_decide (Aws.State (Aws.Configuration res) = "Active")
  && bool_decide (Aws.LastUpdateStatus (Aws.Configuration res) = "Successful").

(** The [while] loop of [waitUntilReady]; [fuel] bounds its iterations. *)
Fixpoint waitUntilReady_loop (fuel : nat) (lambda : Aws.Client)
    (startTime : Z) (fnName : string) (pollInterval : Z) : M W bool :=
  match fuel with
  | O => out_of_fuel
  | S fuel' =>
      time ← (λ this, (Return (now P (world this)), this));
      if bool_decide (time - startTime < waitDurationMillis) then
        res ← call lambda (Aws.CallGetFunction fnName) (lambda_getFunction P lambda fnName);
        if ready res then mret true
        else
          emit (SetTimeout pollInterval);;
          perform (λ w, (inr tt, setTimeout P pollInterval w));;
          waitUntilReady_loop fuel' lambda startTime fnName pollInterval
      else mret false
  end.

(** [waitUntilReady(lambda, context, fnName, pollInterval = 5000)];
    [None] is an omitted [pollInterval]. *)
Definition waitUntilReady (fuel : nat) (lambda : Aws.Client)
    (fnName : string) (pollInterval : option Z) : M W bool :=
  let pollInterval := match pollInterval with Some ms => ms | None => 5000 end in
  startTime ← (λ this, (Return (now P (world this)), this));
  debug ("Waiting up to 600 seconds for Lambda " +:+ fnName +:+ " to be ready.");;
  waitUntilReady_loop fuel lambda startTime fnName pollInterval.

(** [pack(code, shims)] run on the machine; [packDeps] keeps its default
    [true]. *)
Definition pack (code : string) (shims : list string) (packDeps : bool)
    : M W string := λ this,
  let '(rnd, w) :=
    if isArchivePath P code then (EmptyString, world this)
    else random P (world this) in
  let run :=
    Archive.pack (archiver P) (isArchivePath P) (path_resolve P)
      (tmpdir P w) rnd (fileSystem P w) code shims packDeps in
  (run.2, {| world := commit P run.1 w; state := state this;
             log := log this ++ map Pack run.1 |}).

(** *** The component class *)

Definition set_arn (arn : option string) (config : Config.t) : Config.t := {|
  Config.settings := Config.settings config;
  Config.name := Config.name config;
  Config.role := Config.role config;
  Config.zipPath := Config.zipPath config;
  Config.hash := Config.hash config;
  Config.arn := arn
|}.

Definition set_hash (hash : string) (config : Config.t) : Config.t := {|
  Config.settings := Config.settings config;
  Config.name := Config.name config;
  Config.role := Config.role config;
  Config.zipPath := Config.zipPath config;
  Config.hash := hash;
  Config.arn := Config.arn config
|}.

(** [pick(outputsList, config)]. *)
Definition outputs_of (config : Config.t) : Outputs.t := {|
  Outputs.name := Config.name config;
  Outputs.hash := Config.hash config;
  Outputs.description := Settings.description config;
  Outputs.memory := Settings.memory config;
  Outputs.timeout := Settings.timeout config;
  Outputs.code := Settings.code config;
  Outputs.bucket := Settings.bucket config;
  Outputs.shims := Settings.shims config;
  Outputs.handler := Settings.handler config;
  Outputs.runtime := Settings.runtime config;
  Outputs.architectures := Settings.architectures config;
  Outputs.env := Settings.env config;
  Outputs.role := Config.role config;
  Outputs.layer := Settings.layer config;
  Outputs.arn := Config.arn config;
  Outputs.region := Settings.region config
|}.

(** The role component called with [inputs]; [config.role] becomes
    [{ arn: outputsAwsIamRole.arn }]. *)
Definition load_role (inputs : RoleInputs.t) : M W Role.t :=
  emit (AwsIamRole inputs);;
  outputsAwsIamRole ← perform (awsIamRole P inputs);
  mret {| Role.arn := Role.arn outputsAwsIamRole |}.

(** [default], lines 55-94: name, client, role, package and hash.
    [settings] is the merged [config] of line 57. *)
Definition default_prepare (settings : Settings.t) : M W (Aws.Client * Config.t) :=
  status "Deploying";;
  this_state ← get_state;
  name ←
    match truthy (Outputs.name <$> this_state) with
    | Some name => mret name
    | None =>
        match truthy (Settings.name settings) with
        | Some name => mret name
        | None => perform (λ w, let '(id, w') := resourceId P w in (inr id, w'))
        end
    end;
  debug ("Starting deployment of lambda " +:+ name +:+ " to the "
         +:+ Settings.region settings +:+ " region.");;
  let lambda := {| Aws.region := Some (Settings.region settings);
                   Aws.maxRetries := 10 |} in
  emit (Load "@serverless/aws-iam-role");;
  perform (load P "@serverless/aws-iam-role");;
  role ←
    match Settings.role settings with
    | None =>
        debug ("No role provided for lambda " +:+ name +:+ ".");;
        load_role {|
          RoleInputs.service := "lambda.amazonaws.com";
          RoleInputs.policy :=
            {| Role.arn := "arn:aws:iam::aws:policy/AdministratorAccess" |};
          RoleInputs.region := Settings.region settings
        |}
    | Some role => load_role role
    end;
  status "Packaging";;
  debug ("Packaging lambda code from " +:+ Settings.code settings +:+ ".");;
  zipPath ← pack (Settings.code settings) (Settings.shims settings) true;
  emit (HashFile zipPath);;
  hash ← perform (λ w, (hashFile P zipPath w, w));
  mret (lambda, {|
    Config.settings := settings;
    Config.name := name;
    Config.role := role;
    Config.zipPath := zipPath;
    Config.hash := hash;
    Config.arn := None
  |}).

(** [default], lines 112-121: the [try] block around the config update.
    The assignment [config.hash = updateResult.hash] survives a throw of
    the wait that follows it inside the block, so the block is split at
    that assignment; either part logs what it catches. *)
Definition default_update_config (fuel : nat) (lambda : Aws.Client)
    (config : Config.t) : M W Config.t :=
  updated ←
    try_catch
      (debug (updating_message config);;
       updateResult ← updateLambdaConfig lambda config;
       debug ("Lambda config for " +:+ Settings.description config +:+ " updated.");;
       mret (Some updateResult))
      (λ e, emit (ConsoleError e);; mret None);
  match updated with
  | Some updateResult =>
      let config := set_hash updateResult.2 config in
      try_catch
        (waitUntilReady fuel lambda (Config.name config) None;; mret tt)
        (λ e, emit (ConsoleError e));;
      mret config
  | None => mret config
  end.

(** [default], lines 96-138: read the remote state, create or update,
    replace a renamed function, save the baseline. *)
Definition default_reconcile (fuel : nat) (lambda : Aws.Client)
    (config : Config.t) : M W Outputs.t :=
  prevLambda ← getLambda lambda (Config.name config);
  config ←
    match prevLambda with
    | None =>
        debug (creating_message config);;
        createResult ← createLambda lambda config;
        let config := set_hash createResult.2 (set_arn (Some createResult.1) config) in
        waitUntilReady fuel lambda (Config.name config) None;;
        mret config
    | Some prevLambda =>
        let config := set_arn (Some (Observed.arn prevLambda)) config in
        if configChanged prevLambda config then
          prevArchitectures ←
            match Observed.architectures prevLambda with
            | Some architectures => mret architectures
            | None => throw (TypeError undefined_index_message)
            end;
          (if bool_decide (prevArchitectures !! 0%nat
                           ≠ Settings.architectures config !! 0%nat)
              || (negb (is_truthy (Settings.bucket config))
                  && bool_decide (Observed.hash prevLambda ≠ Config.hash config))
           then
             debug ("Uploading " +:+ Config.name config +:+ " lambda code.");;
             updateLambdaCode lambda config;;
             waitUntilReady fuel lambda (Config.name config) None;;
             mret tt
           else mret tt);;
          default_update_config fuel lambda config
        else mret config
    end;
  this_state ← get_state;
  match truthy (Outputs.name <$> this_state) with
  | Some stateName =>
      if bool_decide (stateName ≠ Config.name config) then
        status "Replacing";;
        deleteLambda lambda stateName
      else mret tt
  | None => mret tt
  end;;
  debug (deployed_message config);;
  let outputs := outputs_of config in
  set_state (Some outputs);;
  emit (Save (Some outputs));;
  perform (λ w, (inr tt, save P (Some outputs) w));;
  mret outputs.

(** [default(inputs)]. *)
Definition default (fuel : nat) (settings : Settings.t) : M W Outputs.t :=
  prepared ← default_prepare settings;
  default_reconcile fuel prepared.1 prepared.2.

(** [createAlias({ alias, version })]. *)
Definition createAlias (alias version : string) : M W unit :=
  this_state ← get_state;
  let name := Outputs.name <$> this_state in
  let region := Outputs.region <$> this_state in
  let lambda := {| Aws.region := region; Aws.maxRetries := 10 |} in
  let params := {|
    Aws.CreateAlias.FunctionName := name;
    Aws.CreateAlias.Name := alias;
    Aws.CreateAlias.FunctionVersion := version
  |} in
  try_catch
    (call lambda (Aws.CallCreateAlias params) (lambda_createAlias P lambda params))
    (λ e, if bool_decide (exn_code e = Some "ResourceConflictException")
          then debug "Alias already exists. Cool."
          else throw (ErrorOf e)).

End Component.

(** The instance after a backend call [r] that left the world at [w]. *)
Definition called {W} (lambda : Aws.Client) (r : Aws.request) (w : W)
    (this : Instance W) : Instance W :=
  {| world := w; state := state this; log := log this ++ [Call lambda r] |}.

(** The client and the parameters [createAlias] builds from [this.state]. *)
Definition alias_client {W} (this : Instance W) : Aws.Client :=
  {| Aws.region := Outputs.region <$> state this; Aws.maxRetries := 10 |}.

Definition alias_params (alias version : string) {W} (this : Instance W)
    : Aws.CreateAlias.params := {|
  Aws.CreateAlias.FunctionName := Outputs.name <$> state this;
  Aws.CreateAlias.Name := alias;
  Aws.CreateAlias.FunctionVersion := version
|}.

(** The observed and the desired configuration agree on every compared
    key: description, runtime, role, handler, memory, timeout, env, hash. *)
Definition same_on_compared_keys (prevLambda : Observed.t) (config : Config.t)
    : Prop :=
  Observed.description prevLambda = Settings.description config
  ∧ Observed.runtime prevLambda = Settings.runtime config
  ∧ Role.arn (Observed.role prevLambda) = Role.arn (Config.role config)
  ∧ Observed.handler prevLambda = Settings.handler config
  ∧ Observed.memory prevLambda = Settings.memory config
  ∧ Observed.timeout prevLambda = Settings.timeout config
  ∧ Observed.env prevLambda = Some (Settings.env config)
  ∧ Observed.hash prevLambda = Config.hash config.

(** The baseline carries no usable name, or the name of [config]. *)
Definition baseline_name_unchanged {W} (this : Instance W) (config : Config.t)
    : Prop :=
  truthy (Outputs.name <$> state this) = None
  ∨ truthy (Outputs.name <$> state this) = Some (Config.name config).

(** One unsuccessful poll of the readiness waiter: the call and the pause. *)
Definition poll_events (lambda : Aws.Client) (fnName : string) (pollInterval : Z)
    : list event :=
  [Call lambda (Aws.CallGetFunction fnName); SetTimeout pollInterval].

(** The backend calls of a log that change the remote function. *)
Definition mutations (events : list event) : list Aws.request :=
  omap (λ ev, match ev with
              | Call _ r => if Aws.mutating r then Some r else None
              | _ => None
              end) events.

(** Steps that leave [this.state] alone and change nothing remotely. *)
Definition quiet {W A} (m : M W A) : Prop :=
  ∀ this, state (m this).2 = state this
          ∧ mutations (log (m this).2) = mutations (log this).

(** The [defaults] object; [cwd] is [process.cwd()]. *)
Definition defaults (cwd : string) : Settings.t := {|
  Settings.name := None;
  Settings.description := "AWS Lambda Component";
  Settings.memory := 512;
  Settings.timeout := 10;
  Settings.code := cwd;
  Settings.bucket := None;
  Settings.shims := [];
  Settings.handler := "handler.hello";
  Settings.runtime := "nodejs18.x";
  Settings.architectures := ["arm64"];
  Settings.architecture := None;
  Settings.env := ∅;
  Settings.region := "us-east-1";
  Settings.tracingConfig := {| Aws.Mode := "PassThrough" |};
  Settings.role := None;
  Settings.layer := None;
  Settings.vpcConfig := None
|}.

End AwsLambda.

(** ** A small simulated platform

    One remote function at most, a clock that only [setTimeout] advances and a
    disk holding the archives written; used to run the component on concrete
    inputs. *)
Module Simulation.
Import Js AwsLambda.

Record World : Type := {
  clock : Z;
  function : option Aws.FunctionConfiguration;
  reject_config_update : bool;
  aliases : list string;
  tree : Archive.dirent;                     (* what lies under /src *)
  disk : list (string * list Byte.byte);     (* archives written *)
  baseline : option Outputs.t                (* what this.save() stored *)
}.

Definition not_found : exn :=
  AwsError "ResourceNotFoundException" "Function not found".

(** The digest the simulated backend and [hashFile] both use. *)
Definition digest (content : list Byte.byte) : string :=
  "sha:" +:+ String.string_of_list_byte content.

Definition code_digest (code : Aws.CodeSource) : string :=
  match code with
  | Aws.ZipFile content => digest content
  | Aws.S3 bucket key => "s3:" +:+ bucket +:+ "/" +:+ key
  end.

Definition with_function (f : option Aws.FunctionConfiguration) (w : World) : World :=
  {| clock := clock w; function := f;
     reject_config_update := reject_config_update w; aliases := aliases w;
     tree := tree w; disk := disk w; baseline := baseline w |}.

Definition lookup_function (name : string) (w : World)
    : exn + Aws.FunctionConfiguration :=
  match function w with
  | Some f => if bool_decide (Aws.FunctionName f = name) then inr f else inl not_found
  | None => inl not_found
  end.

Definition sim_createFunction (p : Aws.CreateFunction.params) (w : World)
    : (exn + Aws.FunctionConfiguration) * World :=
  match function w with
  | Some _ => (inl (AwsError "ResourceConflictException" "Function already exist"), w)
  | None =>
      let f := {|
        Aws.FunctionName := Aws.CreateFunction.FunctionName p;
        Aws.FunctionArn := "arn:aws:lambda:" +:+ Aws.CreateFunction.FunctionName p;
        Aws.Description := Aws.CreateFunction.Description p;
        Aws.Timeout := Aws.CreateFunction.Timeout p;
        Aws.Runtime := Aws.CreateFunction.Runtime p;
        Aws.Role := Aws.CreateFunction.Role p;
        Aws.Handler := Aws.CreateFunction.Handler p;
        Aws.MemorySize := Aws.CreateFunction.MemorySize p;
        Aws.CodeSha256 := code_digest (Aws.CreateFunction.Code p);
        Aws.Environment :=
          Some {| Aws.Variables := Some (Aws.CreateFunction.Environment p) |};
        Aws.State := "Active";
        Aws.LastUpdateStatus := "Successful"
      |} in
      (inr f, with_function (Some f) w)
  end.

Definition sim_updateFunctionCode (p : Aws.UpdateFunctionCode.params) (w : World)
    : (exn + Aws.FunctionConfiguration) * World :=
  match lookup_function (Aws.UpdateFunctionCode.FunctionName p) w with
  | inr f =>
      let f' := {|
        Aws.FunctionName := Aws.FunctionName f;
        Aws.FunctionArn := Aws.FunctionArn f;
        Aws.Description := Aws.Description f;
        Aws.Timeout := Aws.Timeout f;
        Aws.Runtime := Aws.Runtime f;
        Aws.Role := Aws.Role f;
        Aws.Handler := Aws.Handler f;
        Aws.MemorySize := Aws.MemorySize f;
        Aws.CodeSha256 := code_digest (Aws.UpdateFunctionCode.Code p);
        Aws.Environment := Aws.Environment f;
        Aws.State := Aws.State f;
        Aws.LastUpdateStatus := Aws.LastUpdateStatus f
      |} in
      (inr f', with_function (Some f') w)
  | inl e => (inl e, w)
  end.

Definition sim_updateFunctionConfiguration
    (p : Aws.UpdateFunctionConfiguration.params) (w : World)
    : (exn + Aws.FunctionConfiguration) * World :=
  if reject_config_update w then
    (inl (AwsError "InvalidParameterValueException" "rejected"), w)
  else
    match lookup_function (Aws.UpdateFunctionConfiguration.FunctionName p) w with
    | inr f =>
        let f' := {|
          Aws.FunctionName := Aws.FunctionName f;
          Aws.FunctionArn := Aws.FunctionArn f;
          Aws.Description := Aws.UpdateFunctionConfiguration.Description p;
          Aws.Timeout := Aws.UpdateFunctionConfiguration.Timeout p;
          Aws.Runtime := Aws.UpdateFunctionConfiguration.Runtime p;
          Aws.Role := Aws.UpdateFunctionConfiguration.Role p;
          Aws.Handler := Aws.UpdateFunctionConfiguration.Handler p;
          Aws.MemorySize := Aws.UpdateFunctionConfiguration.MemorySize p;
          Aws.CodeSha256 := Aws.CodeSha256 f;
          Aws.Environment :=
            Some {| Aws.Variables :=
                      Some (Aws.UpdateFunctionConfiguration.Environment p) |};
          Aws.State := Aws.State f;
          Aws.LastUpdateStatus := Aws.LastUpdateStatus f
        |} in
        (inr f', with_function (Some f') w)
    | inl e => (inl e, w)
    end.

Definition sim_deleteFunction (name : string) (w : World) : (exn + unit) * World :=
  match lookup_function name w with
  | inr _ => (inr tt, with_function None w)
  | inl e => (inl e, w)
  end.

Definition sim_createAlias (p : Aws.CreateAlias.params) (w : World)
    : (exn + unit) * World :=
  match Aws.CreateAlias.FunctionName p with
  | None => (inl (AwsError "MissingRequiredParameter" "FunctionName"), w)
  | Some name =>
      match lookup_function name w with
      | inl e => (inl e, w)
      | inr _ =>
          if bool_decide (Aws.CreateAlias.Name p ∈ aliases w) then
            (inl (AwsError "ResourceConflictException" "Alias already exists"), w)
          else
            (inr tt,
             {| clock := clock w; function := function w;
                reject_config_update := reject_config_update w;
                aliases := Aws.CreateAlias.Name p :: aliases w;
                tree := tree w; disk := disk w; baseline := baseline w |})
      end
  end.

Definition sim_commit (ios : list Archive.io) (w : World) : World :=
  {| clock := clock w; function := function w;
     reject_config_update := reject_config_update w; aliases := aliases w;
     tree := tree w;
     disk := omap (λ e, match e with
                        | Archive.IoClose path content => Some (path, content)
                        | _ => None
                        end) ios ++ disk w;
     baseline := baseline w |}.

Definition sim_readFile (path : string) (w : World) : exn + list Byte.byte :=
  match list_find (λ f, f.1 = path) (disk w) with
  | Some (_, (_, content)) => inr content
  | None => inl (FsError "ENOENT" path)
  end.

(** The archive as the simulated archiver lays it out: per entry its name,
    its date and its bytes. *)
Definition sim_archiver (format : string) (entries : list Archive.Entry)
    : list Byte.byte :=
  String.list_byte_of_string format
  ++ concat (map (λ e, String.list_byte_of_string (Archive.name e)
                       ++ (if bool_decide (Archive.date e = 0) then [] else [Byte.x01])
                       ++ Archive.source e) entries).

(** The file system with [tree] under /src; a file holds its own path. *)
Definition file_system (tree : Archive.dirent) : Archive.FileSystem := {|
  Archive.fs_stat := λ p, if bool_decide (p = "/src") then Some tree else None;
  Archive.fs_read := λ p, String.list_byte_of_string p
|}.

Definition platform : Platform World := {|
  resourceId := λ w, ("generated-id", w);
  load := λ _ w, (inr tt, w);
  awsIamRole := λ inputs w,
    (inr {| Role.arn := "arn:aws:iam::role/" +:+ RoleInputs.service inputs |}, w);
  save := λ s w,
    {| clock := clock w; function := function w;
       reject_config_update := reject_config_update w; aliases := aliases w;
       tree := tree w; disk := disk w; baseline := s |};
  fileSystem := λ w, file_system (tree w);
  tmpdir := λ _, "/tmp";
  random := λ w, ("k3x9", w);
  commit := sim_commit;
  readFile := sim_readFile;
  hashFile := λ path w, match sim_readFile path w with
                        | inr content => inr (digest content)
                        | inl e => inl e
                        end;
  archiver := sim_archiver;
  isArchivePath := λ p, Archive.isValidFormat (last (split dot p));
  path_resolve := λ p, p;
  lambda_createFunction := λ _, sim_createFunction;
  lambda_updateFunctionCode := λ _, sim_updateFunctionCode;
  lambda_updateFunctionConfiguration := λ _, sim_updateFunctionConfiguration;
  lambda_getFunctionConfiguration := λ _ name w, (lookup_function name w, w);
  lambda_getFunction := λ _ name w,
    (match lookup_function name w with
     | inr f => inr {| Aws.Configuration := f |}
     | inl e => inl e
     end, w);
  lambda_deleteFunction := λ _, sim_deleteFunction;
  lambda_createAlias := λ _, sim_createAlias;
  now := clock;
  setTimeout := λ ms w,
    {| clock := clock w + ms; function := function w;
       reject_config_update := reject_config_update w; aliases := aliases w;
       tree := tree w; disk := disk w; baseline := baseline w |}
|}.

(** A source tree with a vendored dependency. *)
Definition project : Archive.dirent :=
  Archive.Directory
    [("index.js", Archive.File);
     ("node_modules",
      Archive.Directory [("dep.js", Archive.File)]);
     ("handler.js", Archive.File)].

(** The same tree as another enumeration order shows it. *)
Definition project_reordered : Archive.dirent :=
  Archive.Directory
    [("node_modules",
      Archive.Directory [("dep.js", Archive.File)]);
     ("handler.js", Archive.File);
     ("index.js", Archive.File)].

Definition fresh : World := {|
  clock := 1000;
  function := None;
  reject_config_update := false;
  aliases := [];
  tree := project;
  disk := [];
  baseline := None
|}.

Definition client : Aws.Client :=
  {| Aws.region := Some "us-east-1"; Aws.maxRetries := 10 |}.

(** A function "f1" in a given lifecycle state and update status. *)
Definition f1 (State LastUpdateStatus : string) : Aws.FunctionConfiguration := {|
  Aws.FunctionName := "f1";
  Aws.FunctionArn := "arn:aws:lambda:f1";
  Aws.Description := "AWS Lambda Component";
  Aws.Timeout := 10;
  Aws.Runtime := "nodejs18.x";
  Aws.Role := "arn:aws:iam::role/lambda.amazonaws.com";
  Aws.Handler := "handler.hello";
  Aws.MemorySize := 512;
  Aws.CodeSha256 := "sha:f1";
  Aws.Environment := None;
  Aws.State := State;
  Aws.LastUpdateStatus := LastUpdateStatus
|}.

(** A world in which "f1" is deployed and settled, and one in which it
    stays pending. *)
Definition settled : World := with_function (Some (f1 "Active" "Successful")) fresh.
Definition pending : World := with_function (Some (f1 "Pending" "InProgress")) fresh.

Definition start (w : World) (s : option Outputs.t) : Instance World :=
  {| world := w; state := s; log := [] |}.

(** The defaults with code under /src, a description and architectures. *)
Definition settings_with (description : string) (architectures : list string)
    : Settings.t := {|
  Settings.name := None;
  Settings.description := description;
  Settings.memory := Settings.memory (defaults "/src");
  Settings.timeout := Settings.timeout (defaults "/src");
  Settings.code := "/src";
  Settings.bucket := None;
  Settings.shims := [];
  Settings.handler := Settings.handler (defaults "/src");
  Settings.runtime := Settings.runtime (defaults "/src");
  Settings.architectures := architectures;
  Settings.architecture := None;
  Settings.env := ∅;
  Settings.region := Settings.region (defaults "/src");
  Settings.tracingConfig := Settings.tracingConfig (defaults "/src");
  Settings.role := None;
  Settings.layer := None;
  Settings.vpcConfig := None
|}.

(** The settings of a first deployment: the defaults, code under /src. *)
Definition settings : Settings.t := defaults "/src".

(** The same with another description; with another description and another
    architecture; with another architecture only. *)
Definition settings_redescribed : Settings.t :=
  settings_with "A new description" ["arm64"].
Definition settings_rearchitected : Settings.t :=
  settings_with "A new description" ["x86_64"].
Definition settings_x86 : Settings.t :=
  settings_with "AWS Lambda Component" ["x86_64"].

(** The instance in which a first deployment ends, as the next run finds
    it: same world and state, empty log. *)
Definition after {A} (run : outcome A * Instance World) : Instance World :=
  {| world := world run.2; state := state run.2; log := [] |}.

(** The events of a handled failure and of a saved baseline. *)
Definition caught_or_saved (ev : event) : bool :=
  match ev with
  | ConsoleError _ | Save _ => true
  | _ => false
  end.

(** The same world with a backend that rejects every config update. *)
Definition rejecting (w : World) : World :=
  {| clock := clock w; function := function w; reject_config_update := true;
     aliases := aliases w; tree := tree w; disk := disk w;
     baseline := baseline w |}.

Definition first_run : outcome Outputs.t * Instance World :=
  default platform 8 settings (start fresh None).

End Simulation.

(** ** The other methods of the component

    [publishVersion] and [remove] use, beyond the platform of [default], a
    backend call, the [remove] methods of two loaded components and
    [console.error] on a string; these effects show in the world. *)
Module Lifecycle.
Import Js AwsLambda.

Module PublishVersion.
Record params : Type := {
  FunctionName : option string;
  CodeSha256 : option string
}.
End PublishVersion.

Record Extension (W : Type) : Type := {
  (* lambda.publishVersion(params).promise(), answering [Version] *)
  lambda_publishVersion :
    Aws.Client → PublishVersion.params → W → (exn + string) * W;
  stack_or_text : exn → string;                  (* `${e.stack || e}` *)
  console_error : string → W → W;                (* console.error of a string *)
  awsIamRole_remove : W → (exn + unit) * W;      (* awsIamRole.remove() *)
  layer_remove : W → (exn + unit) * W            (* layer.remove() *)
}.
Arguments lambda_publishVersion {W} _. Arguments stack_or_text {W} _.
Arguments console_error {W} _. Arguments awsIamRole_remove {W} _.
Arguments layer_remove {W} _.

(** A property of [this.state] inside a template literal. *)
Definition text_of (s : option string) : string :=
  match s with
  | Some s => s
  | None => "undefined"
  end.

Definition aborting_message : string :=
  "Aborting removal. Function name not found in state.".

Section Methods.
Context {W : Type} (P : Platform W) (X : Extension W).

(** [publishVersion()]: the [version] of the object it returns. *)
Definition publishVersion : M W string :=
  this_state ← get_state;
  let name := Outputs.name <$> this_state in
  let region := Outputs.region <$> this_state in
  let hash := Outputs.hash <$> this_state in
  let lambda := {| Aws.region := region; Aws.maxRetries := 10 |} in
  try_catch
    (perform (lambda_publishVersion X lambda
                {| PublishVersion.FunctionName := name;
                   PublishVersion.CodeSha256 := hash |}))
    (λ e,
       perform (λ w, (inr tt,
                      console_error X ("Error publishing " +:+ text_of name +:+ " - "
                                       +:+ stack_or_text X e) w));;
       mret "").

(** [remove()]: [None] is the [undefined] of the early [return];
    [pick(outputsList, this.state)] is the state, which has those keys
    only. *)
Definition remove : M W (option Outputs.t) :=
  status "Removing";;
  this_state ← get_state;
  match this_state, truthy (Outputs.name <$> this_state) with
  | Some outputs, Some name =>
      let region := Outputs.region outputs in
      let lambda := {| Aws.region := Some region; Aws.maxRetries := 10 |} in
      emit (Load "@serverless/aws-iam-role");;
      perform (load P "@serverless/aws-iam-role");;
      emit (Load "@serverless/aws-lambda-layer");;
      perform (load P "@serverless/aws-lambda-layer");;
      perform (awsIamRole_remove X);;
      perform (layer_remove X);;
      debug ("Removing lambda " +:+ name +:+ " from the " +:+ region +:+ " region.");;
      deleteLambda P lambda name;;
      debug ("Successfully removed lambda " +:+ name +:+ " from the " +:+ region
             +:+ " region.");;
      set_state None;;
      emit (Save None);;
      perform (λ w, (inr tt, save P None w));;
      mret (Some outputs)
  | _, _ =>
      debug aborting_message;;
      mret None
  end.

End Methods.

(** The events of a [remove] that found a name and of one that did not. *)
Definition removing_events (lambda : Aws.Client) (name region : string)
    : list event :=
  [Status "Removing";
   Load "@serverless/aws-iam-role";
   Load "@serverless/aws-lambda-layer";
   Debug ("Removing lambda " +:+ name +:+ " from the " +:+ region +:+ " region.");
   Call lambda (Aws.CallDeleteFunction name)].

Definition removed_events (name region : string) : list event :=
  [Debug ("Successfully removed lambda " +:+ name +:+ " from the " +:+ region
          +:+ " region.");
   Save None].

Definition aborting_events : list event :=
  [Status "Removing"; Debug aborting_message].

End Lifecycle.

(** ** Variants of the simulated platform and of its inputs *)
Module Variants.
Import Js AwsLambda Simulation.

(** [P] with another answer to [getFunction]. *)
Definition with_getFunction {W} (P : Platform W)
    (op : Aws.Client → string → W → (exn + Aws.GetFunctionResponse) * W)
    : Platform W := {|
  resourceId := resourceId P;
  load := load P;
  awsIamRole := awsIamRole P;
  save := save P;
  fileSystem := fileSystem P;
  tmpdir := tmpdir P;
  random := random P;
  commit := commit P;
  readFile := readFile P;
  hashFile := hashFile P;
  archiver := archiver P;
  isArchivePath := isArchivePath P;
  path_resolve := path_resolve P;
  lambda_createFunction := lambda_createFunction P;
  lambda_updateFunctionCode := lambda_updateFunctionCode P;
  lambda_updateFunctionConfiguration := lambda_updateFunctionConfiguration P;
  lambda_getFunctionConfiguration := lambda_getFunctionConfiguration P;
  lambda_getFunction := op;
  lambda_deleteFunction := lambda_deleteFunction P;
  lambda_createAlias := lambda_createAlias P;
  now := now P;
  setTimeout := setTimeout P
|}.

Definition unavailable : exn := AwsError "ServiceException" "Service unavailable".

(** A backend whose [getFunction] is out of order. *)
Definition outage : Platform World :=
  with_getFunction platform (λ _ _ w, (inl unavailable, w)).

(** A backend on which every function stays pending. *)
Definition slow : Platform World :=
  with_getFunction platform (λ _ name w,
    (match lookup_function name w with
     | inr f =>
         inr {| Aws.Configuration := {|
           Aws.FunctionName := Aws.FunctionName f;
           Aws.FunctionArn := Aws.FunctionArn f;
           Aws.Description := Aws.Description f;
           Aws.Timeout := Aws.Timeout f;
           Aws.Runtime := Aws.Runtime f;
           Aws.Role := Aws.Role f;
           Aws.Handler := Aws.Handler f;
           Aws.MemorySize := Aws.MemorySize f;
           Aws.CodeSha256 := Aws.CodeSha256 f;
           Aws.Environment := Aws.Environment f;
           Aws.State := "Pending";
           Aws.LastUpdateStatus := "InProgress"
         |} |}
     | inl e => inl e
     end, w)).

(** Nothing fails in the loaded components; the backend publishes
    version "1" of a function it holds. *)
Definition extension : Lifecycle.Extension World := {|
  Lifecycle.lambda_publishVersion := λ _ p w,
    (match Lifecycle.PublishVersion.FunctionName p with
     | Some name =>
         match lookup_function name w with
         | inr _ => inr "1"
         | inl e => inl e
         end
     | None => inl (AwsError "MissingRequiredParameter" "FunctionName")
     end, w);
  Lifecycle.stack_or_text := λ e,
    match e with
    | AwsError code message => code +:+ ": " +:+ message
    | _ => "Error"
    end;
  Lifecycle.console_error := λ _ w, w;
  Lifecycle.awsIamRole_remove := λ w, (inr tt, w);
  Lifecycle.layer_remove := λ w, (inr tt, w)
|}.

(** The same, but for a role component that cannot be removed. *)
Definition denied : exn := AwsError "AccessDenied" "Cannot delete the role".

Definition extension_denied : Lifecycle.Extension World := {|
  Lifecycle.lambda_publishVersion := Lifecycle.lambda_publishVersion extension;
  Lifecycle.stack_or_text := Lifecycle.stack_or_text extension;
  Lifecycle.console_error := Lifecycle.console_error extension;
  Lifecycle.awsIamRole_remove := λ w, (inl denied, w);
  Lifecycle.layer_remove := Lifecycle.layer_remove extension
|}.

(** [settings] under another name, with the code at another place. *)
Definition settings_at (name : option string) (code : string)
    (settings : Settings.t) : Settings.t := {|
  Settings.name := name;
  Settings.description := Settings.description settings;
  Settings.memory := Settings.memory settings;
  Settings.timeout := Settings.timeout settings;
  Settings.code := code;
  Settings.bucket := Settings.bucket settings;
  Settings.shims := Settings.shims settings;
  Settings.handler := Settings.handler settings;
  Settings.runtime := Settings.runtime settings;
  Settings.architectures := Settings.architectures settings;
  Settings.architecture := Settings.architecture settings;
  Settings.env := Settings.env settings;
  Settings.region := Settings.region settings;
  Settings.tracingConfig := Settings.tracingConfig settings;
  Settings.role := Settings.role settings;
  Settings.layer := Settings.layer settings;
  Settings.vpcConfig := Settings.vpcConfig settings
|}.

(** The first deployment's settings asked for under the name "renamed";
    the same with code that is not there. *)
Definition settings_renamed : Settings.t := settings_at (Some "renamed") "/src" settings.
Definition settings_missing : Settings.t := settings_at None "/missing" settings.

End Variants.

(** ** Notions used to state further properties *)
Module Support.
Import Js Archive.

(** The entries of a tree that are not directories. *)
Fixpoint leaves (dir : dirent) : nat :=
  match dir with
  | File => 1%nat
  | Directory files =>
      (fix sum (files : list (string * dirent)) : nat :=
         match files with
         | [] => 0%nat
         | (_, st) :: files' => (leaves st + sum files')%nat
         end) files
  end.

(** A name an entry of a directory can bear: not empty, neither "." nor
    "..", without a slash. *)
Fixpoint no_slash (s : string) : bool :=
  match s with
  | EmptyString => true
  | String c s' => negb (Ascii.eqb c slash) && no_slash s'
  end.

Definition entry_name (name : string) : bool :=
  negb (bool_decide (name = "" ∨ name = "." ∨ name = "..")) && no_slash name.

(** A tree as a file system holds one: every entry bears such a name, and
    no two entries of one directory bear the same. *)
Fixpoint well_formed (dir : dirent) : bool :=
  match dir with
  | File => true
  | Directory files =>
      bool_decide (NoDup (map fst files))
      && forallb entry_name (map fst files)
      && (fix all (files : list (string * dirent)) : bool :=
            match files with
            | [] => true
            | (_, st) :: files' => well_formed st && all files'
            end) files
  end.

(** The files of a tree by their paths from its root, in the order of the
    enumeration. *)
Fixpoint relative_paths (dir : dirent) : list string :=
  match dir with
  | File => []
  | Directory files =>
      (fix each (files : list (string * dirent)) : list string :=
         match files with
         | [] => []
         | (name, st) :: files' =>
             match st with
             | File => [name]
             | Directory _ =>
                 map (λ path, name +:+ "/" +:+ path) (relative_paths st)
             end ++ each files'
         end) files
  end.

(** What [path.join(dirPath, '/', file)] joins before [file], and what it
    leaves of it: the normalized directory path, closed by a slash unless
    empty. *)
Definition joined_directory (dirPath : string) : string :=
  if bool_decide (dirPath = "") then "/" else dirPath +:+ "//".

Definition entry_prefix (dirPath : string) : string :=
  let joined := joined_directory dirPath in
  let kept :=
    fold_left (normalize_step (negb (starts_with_slash joined)))
              (split slash joined) [] in
  (if starts_with_slash joined then "/" else "")
  +:+ match kept with
      | [] => ""
      | _ => join "/" kept +:+ "/"
      end.

(** The shims of an [include] argument, none for [null]. *)
Definition shims_of (include : option (list string)) : list string :=
  match include with
  | Some shims => shims
  | None => []
  end.

(** A step that leaves [this.state] alone and adds to the log only events
    that satisfy [allowed]. *)
Definition steady {W A} (allowed : AwsLambda.event → Prop)
    (m : AwsLambda.M W A) : Prop :=
  ∀ this,
    AwsLambda.state (m this).2 = AwsLambda.state this
    ∧ ∃ events, AwsLambda.log (m this).2 = AwsLambda.log this ++ events
                ∧ Forall allowed events.

(** Every value a step returns satisfies [post]. *)
Definition returns {W A} (post : A → Prop) (m : AwsLambda.M W A) : Prop :=
  ∀ this a, (m this).1 = Return a → post a.

(** What lines 55-94 of [default] do: nothing on the backend. *)
Definition local (ev : AwsLambda.event) : Prop :=
  match ev with
  | AwsLambda.Status message => message ≠ "Replacing"
  | AwsLambda.Debug _ | AwsLambda.Load _ | AwsLambda.AwsIamRole _
  | AwsLambda.Pack _ | AwsLambda.HashFile _ => True
  | _ => False
  end.

(** What lines 96-123 of [default] do: reads, create and update calls,
    waits. *)
Definition reconciling (ev : AwsLambda.event) : Prop :=
  match ev with
  | AwsLambda.Debug _ | AwsLambda.ReadFile _ | AwsLambda.SetTimeout _
  | AwsLambda.ConsoleError _ => True
  | AwsLambda.Call _ r =>
      match r with
      | Aws.CallDeleteFunction _ | Aws.CallCreateAlias _ => False
      | _ => True
      end
  | _ => False
  end.

(** [c] is [config] with an ARN and, possibly, another hash. *)
Definition same_deployment (config c : Config.t) : Prop :=
  Config.settings c = Config.settings config
  ∧ Config.name c = Config.name config
  ∧ Config.role c = Config.role config
  ∧ Config.zipPath c = Config.zipPath config
  ∧ is_Some (Config.arn c).

(** [default], lines 125-138: what follows the create or the update of
    lines 98-123, [config] being the configuration these leave. *)
Definition default_conclude {W} (P : AwsLambda.Platform W) (lambda : Aws.Client)
    (config : Config.t) : AwsLambda.M W Outputs.t :=
  this_state ← AwsLambda.get_state;
  match AwsLambda.truthy (Outputs.name <$> this_state) with
  | Some stateName =>
      if bool_decide (stateName ≠ Config.name config) then
        AwsLambda.status "Replacing";;
        AwsLambda.deleteLambda P lambda stateName
      else mret tt
  | None => mret tt
  end;;
  AwsLambda.debug (AwsLambda.deployed_message config);;
  let outputs := AwsLambda.outputs_of config in
  AwsLambda.set_state (Some outputs);;
  AwsLambda.emit (AwsLambda.Save (Some outputs));;
  AwsLambda.perform (λ w, (inr tt, AwsLambda.save P (Some outputs) w));;
  mret outputs.

End Support.

(** * Properties *)

(** ** The platform functions on sample inputs *)
Section Samples.
Import Js Archive.

Example split_sample : split dot "/tmp/a.b.zip" = ["/tmp/a"; "b"; "zip"].
Proof. reflexivity. Qed.

Example format_without_dot : last (split dot "archive") = Some "archive".
Proof. reflexivity. Qed.

Example replace_first_sample :
  replace_first "/src" "/src/lib/src/x.js" = "/lib/src/x.js".
Proof. reflexivity. Qed.

Example path_join_sample : path_join ["/src"; "/"; "index.js"] = "/src/index.js".
Proof. reflexivity. Qed.

Example path_join_normalizes : path_join ["./src/"; "/"; "index.js"] = "src/index.js".
Proof. reflexivity. Qed.

Example path_basename_sample : path_basename "/opt/shims/shim.js" = "shim.js".
Proof. reflexivity. Qed.

Example sort_sample : sort ["b"; "a/c"; "a"; "B"] = ["B"; "a"; "a/c"; "b"].
Proof. reflexivity. Qed.

(** The enumeration order shows in [getAllFiles], not in the file list of
    [packDir]. *)
Example getAllFiles_sample :
  getAllFiles "/src" Simulation.project []
  = ["/src/index.js"; "/src/node_modules/dep.js"; "/src/handler.js"].
Proof. reflexivity. Qed.

Example packDir_files_sample :
  map output (packDir_files "/src" Simulation.project)
  = ["/handler.js"; "/index.js"; "/node_modules/dep.js"].
Proof. reflexivity. Qed.

End Samples.

(** ** The order [sort] uses *)
Section StringOrder.
Import Js.

Lemma ascii_compare_refl c : Ascii.compare c c = Eq.
Proof. apply N.compare_refl. Qed.

Lemma string_leb_trans a b c :
  String.leb a b = true → String.leb b c = true → String.leb a c = true.
Proof.
  unfold String.leb. revert b c.
  induction a as [|x a IH]; intros [|y b] [|z c]; simpl; try done.
  destruct (Ascii.compare x y) eqn:Hxy; [| |done].
  - apply Ascii.compare_eq_iff in Hxy as ->.
    destruct (Ascii.compare y z); [apply IH|done|done].
  - destruct (Ascii.compare y z) eqn:Hyz; [| |done].
    + apply Ascii.compare_eq_iff in Hyz as <-. by rewrite Hxy.
    + unfold Ascii.compare in *.
      apply N.compare_lt_iff in Hxy. apply N.compare_lt_iff in Hyz.
      assert (H : (N_of_ascii x ?= N_of_ascii z)%N = Lt)
        by (apply N.compare_lt_iff; by etrans).
      by rewrite H.
Qed.

Global Instance str_le_trans : Transitive str_le.
Proof. intros a b c. apply string_leb_trans. Qed.

Global Instance str_le_total : Total str_le.
Proof. intros a b. apply String.leb_total. Qed.

Global Instance str_le_antisym : AntiSymm (=) str_le.
Proof. intros a b. apply String.leb_antisym. Qed.

Lemma sort_Sorted arr : Sorted str_le (sort arr).
Proof. apply Sorted_merge_sort, _. Qed.

(** Sorting forgets the order in which the elements came. *)
Lemma sort_Permutation arr1 arr2 : arr1 ≡ₚ arr2 → sort arr1 = sort arr2.
Proof.
  intros Hp. apply (Sorted_unique str_le); [apply sort_Sorted..|].
  unfold sort. by rewrite !merge_sort_Permutation.
Qed.

End StringOrder.

(** ** The archive builder *)
Section ArchiveFacts.
Import Js Archive.

(** Induction over a directory tree, through the entries of a directory. *)
Lemma dirent_ind_files (P : dirent → Prop) :
  P File →
  (∀ files, Forall (λ entry, P entry.2) files → P (Directory files)) →
  ∀ dir, P dir.
Proof.
  intros HFile HDirectory. fix IH 1. intros [|files].
  - exact HFile.
  - apply HDirectory.
    induction files as [|[file st] files IHfiles]; constructor.
    + apply IH.
    + exact IHfiles.
Qed.

Lemma getAllFiles_unfold dirPath dir arrayOfFiles :
  getAllFiles dirPath dir arrayOfFiles =
    arrayOfFiles ++ match dir with
                    | File => []
                    | Directory files => concat (map (entry_files dirPath) files)
                    end.
Proof.
  revert dirPath arrayOfFiles.
  induction dir as [|files IH] using dirent_ind_files; intros dirPath arrayOfFiles.
  - simpl. by rewrite app_nil_r.
  - simpl. revert arrayOfFiles.
    induction IH as [|[file st] files Hst _ IHfiles]; intros arrayOfFiles.
    + simpl. by rewrite app_nil_r.
    + cbn [map concat]. rewrite app_assoc, <- IHfiles. cbn. f_equal.
      unfold entry_files. simpl in *.
      destruct st as [|sub]; [done|].
      by rewrite (Hst _ arrayOfFiles), (Hst _ []).
Qed.

Lemma same_tree_refl dir : same_tree dir dir.
Proof.
  induction dir as [|files IH] using dirent_ind_files; constructor.
  induction IH as [|[file st] files Hst _ IHfiles]; by constructor.
Qed.

Lemma same_files_refl files : same_files files files.
Proof.
  induction files as [|[file st] files IH]; constructor;
    [apply same_tree_refl | done].
Qed.

(** Two enumerations of one tree list the same files, in some order. *)
Lemma getAllFiles_same_tree dir1 dir2 :
  same_tree dir1 dir2 →
  ∀ dirPath, getAllFiles dirPath dir1 [] ≡ₚ getAllFiles dirPath dir2 [].
Proof.
  revert dir1 dir2.
  apply (same_tree_mut
    (λ dir1 dir2, ∀ dirPath, getAllFiles dirPath dir1 [] ≡ₚ getAllFiles dirPath dir2 [])
    (λ files1 files2, ∀ dirPath,
       concat (map (entry_files dirPath) files1)
       ≡ₚ concat (map (entry_files dirPath) files2))).
  - done.
  - intros files1 files2 _ IH dirPath.
    rewrite !getAllFiles_unfold. simpl. apply IH.
  - done.
  - intros file st1 st2 files1 files2 Hst IHst _ IHfiles dirPath.
    simpl. f_equiv; [|apply IHfiles].
    unfold entry_files. simpl.
    destruct Hst; [done|]. apply IHst.
  - intros entry1 entry2 files dirPath.
    simpl. rewrite !app_assoc. f_equiv. apply Permutation_app_comm.
  - intros files1 files2 files3 _ IH12 _ IH23 dirPath.
    etrans; [apply IH12 | apply IH23].
Qed.

Lemma packDir_files_same_tree inputDirPath dir1 dir2 :
  same_tree dir1 dir2 →
  packDir_files inputDirPath dir1 = packDir_files inputDirPath dir2.
Proof.
  intros Hsame. unfold packDir_files. f_equal.
  by apply sort_Permutation, getAllFiles_same_tree.
Qed.

Lemma packDir_entries_read fs1 fs2 files include :
  (∀ path, fs_read fs1 path = fs_read fs2 path) →
  packDir_entries fs1 files include = packDir_entries fs2 files include.
Proof.
  intros Hread. unfold packDir_entries. f_equal.
  - apply map_ext. intros file. by rewrite Hread.
  - destruct include as [shims|]; [|done].
    apply map_ext. intros file. by rewrite Hread.
Qed.

Lemma packDir_files_input inputDirPath dir :
  map input (packDir_files inputDirPath dir) = sort (getAllFiles inputDirPath dir []).
Proof.
  unfold packDir_files. rewrite map_map. simpl. apply map_id.
Qed.

(** The file part of the entry list is sorted by path. *)
Lemma packDir_files_sorted inputDirPath dir :
  Sorted str_le (map input (packDir_files inputDirPath dir)).
Proof. rewrite packDir_files_input. apply sort_Sorted. Qed.

(** Every entry, file or shim, carries the epoch as its date: in what the
    archiver is given and in what the run appends. *)
Lemma packDir_entries_epoch fs files include :
  Forall (λ entry, date entry = epoch) (packDir_entries fs files include).
Proof.
  unfold packDir_entries. apply Forall_app. split.
  - apply Forall_map, Forall_true. done.
  - destruct include as [shims|]; [|constructor].
    apply Forall_map, Forall_true. done.
Qed.

Lemma appended_epoch archiver fs inputDirPath outputFilePath include exclude :
  Forall (λ entry, entry.2 = epoch)
    (appended (packDir archiver fs inputDirPath outputFilePath include exclude)).
Proof.
  assert (Hstreams : ∀ {A} (source name : A → string) (l : list A),
            Forall (λ entry : string * Z, entry.2 = epoch)
              (omap (λ e, match e with
                          | IoAppend name date => Some (name, date)
                          | _ => None
                          end)
                 (flat_map (λ x, [IoCreateReadStream (source x);
                                  IoAppend (name x) epoch]) l))).
  { intros A source name l. induction l as [|x l IH]; [constructor|].
    cbn. by constructor. }
  unfold appended, packDir.
  destruct (last (split dot outputFilePath)) as [fmt|]; [|constructor].
  destruct (negb _); [constructor|].
  destruct (fs_stat fs inputDirPath) as [[|files]|]; [constructor| |constructor].
  cbn [fst]. rewrite !omap_app. repeat apply Forall_app_2.
  - constructor.
  - apply Hstreams.
  - destruct include as [shims|]; [|constructor].
    apply (Hstreams _ (λ file, file) path_basename).
  - constructor.
Qed.

(** A run that got as far as closing the output file left the archive of
    its entries there. *)
Lemma artifact_packDir archiver fs inputDirPath outputFilePath include exclude fmt dir :
  last (split dot outputFilePath) = Some fmt →
  isValidFormat (Some fmt) = true →
  fs_stat fs inputDirPath = Some dir →
  artifact (packDir archiver fs inputDirPath outputFilePath include exclude) =
    match dir with
    | Directory _ =>
        Some (archiver fmt
                (packDir_entries fs (packDir_files inputDirPath dir) include))
    | File => None
    end.
Proof.
  intros Hfmt Hvalid Hstat. unfold packDir, artifact.
  rewrite Hfmt, Hvalid, Hstat. simpl.
  destruct dir as [|files]; [done|]. simpl.
  by rewrite !last_cons, !last_app.
Qed.

(** The exclude list has no influence on what [packDir] does. *)
Lemma packDir_exclude archiver fs inputDirPath outputFilePath include exclude exclude' :
  packDir archiver fs inputDirPath outputFilePath include exclude =
  packDir archiver fs inputDirPath outputFilePath include exclude'.
Proof. reflexivity. Qed.

(** The format [packDir] derives is the part of the path after its last
    dot. *)
Lemma split_nonempty sep s : split sep s ≠ [].
Proof.
  destruct s as [|c s]; simpl; [done|].
  destruct (Ascii.eqb c sep); [done|]. by destruct (split sep s).
Qed.

Lemma split_app_sep sep a b :
  split sep (a +:+ String sep b) = split sep a ++ split sep b.
Proof.
  induction a as [|c a IH]; simpl.
  - by rewrite Ascii.eqb_refl.
  - rewrite IH. destruct (Ascii.eqb c sep); [done|].
    pose proof (split_nonempty sep a).
    by destruct (split sep a).
Qed.

Lemma split_no_sep sep s :
  (∀ n, String.get n s ≠ Some sep) → split sep s = [s].
Proof.
  induction s as [|c s IH]; intros Hs; [done|]. simpl.
  destruct (Ascii.eqb_spec c sep) as [->|_].
  - by destruct (Hs 0%nat).
  - rewrite IH; [done|]. intros n. apply (Hs (S n)).
Qed.

Lemma format_after_last_dot prefix suffix :
  (∀ n, String.get n suffix ≠ Some dot) →
  last (split dot (prefix +:+ "." +:+ suffix)) = Some suffix.
Proof.
  intros Hsuffix.
  change (prefix +:+ "." +:+ suffix) with (prefix +:+ String dot suffix).
  rewrite split_app_sep, (split_no_sep _ suffix Hsuffix).
  apply last_snoc.
Qed.

(** C1: packaging the same tree, shims and format twice gives the same
    bytes, hence the same content hash under any hash function, whatever
    the order in which the file system enumerates the directories; with the
    same output path the two runs do the same I/O altogether.  The file
    list is sorted by path and every entry, file or shim, is dated at the
    epoch. *)
Theorem packDir_deterministic
    (archiver : string → list Entry → list Byte.byte)
    (fs1 fs2 : FileSystem) (inputDirPath out1 out2 : string)
    (include exclude : option (list string)) :
  option_Forall2 same_tree (fs_stat fs1 inputDirPath) (fs_stat fs2 inputDirPath) →
  (∀ path, fs_read fs1 path = fs_read fs2 path) →
  last (split dot out1) = last (split dot out2) →
  let run1 := packDir archiver fs1 inputDirPath out1 include exclude in
  let run2 := packDir archiver fs2 inputDirPath out2 include exclude in
  artifact run1 = artifact run2
  ∧ (∀ hashFile : list Byte.byte → string,
       hashFile <$> artifact run1 = hashFile <$> artifact run2)
  ∧ (out1 = out2 → run1 = run2)
  ∧ (∀ dir, Sorted str_le (map input (packDir_files inputDirPath dir)))
  ∧ Forall (λ entry, entry.2 = epoch) (appended run1)
  ∧ (∀ fs files, Forall (λ entry, date entry = epoch)
                        (packDir_entries fs files include)).
Proof.
  intros Htree Hread Hfmt run1 run2.
  assert (Hrun : ∀ out,
            packDir archiver fs1 inputDirPath out include exclude
            = packDir archiver fs2 inputDirPath out include exclude).
  { intros out. unfold packDir.
    destruct (last (split dot out)) as [fmt|]; [|done].
    destruct (negb (isValidFormat (Some fmt))); [done|].
    destruct Htree as [dir1 dir2 Hsame|]; [|done].
    destruct Hsame as [|files1 files2 Hfiles]; [done|].
    assert (Hdir : same_tree (Directory files1) (Directory files2))
      by by constructor.
    rewrite (packDir_files_same_tree _ _ _ Hdir).
    by rewrite (packDir_entries_read fs1 fs2 _ _ Hread). }
  assert (Hartifact : artifact run1 = artifact run2).
  { subst run1 run2. rewrite (Hrun out1).
    unfold packDir, artifact. rewrite Hfmt.
    destruct (last (split dot out2)) as [fmt|]; [|done].
    destruct (negb (isValidFormat (Some fmt))); [done|].
    destruct (fs_stat fs2 inputDirPath) as [[|files]|]; [done| |done].
    simpl. by rewrite !last_cons, !last_app. }
  split_and!.
  - done.
  - intros hashFile. by rewrite Hartifact.
  - intros <-. by apply Hrun.
  - intros dir. apply packDir_files_sorted.
  - apply appended_epoch.
  - intros fs files. apply packDir_entries_epoch.
Qed.

(** C9: an output path whose format, the part after its last dot, is
    neither zip nor tar makes [packDir] throw the invalid-format error
    having done no I/O at all. *)
Theorem packDir_invalid_format
    (archiver : string → list Entry → list Byte.byte)
    (fs : FileSystem) (inputDirPath outputFilePath : string)
    (include exclude : option (list string)) :
  last (split dot outputFilePath) ≠ Some "zip" →
  last (split dot outputFilePath) ≠ Some "tar" →
  packDir archiver fs inputDirPath outputFilePath include exclude
  = ([], Throw (Error invalid_format_message)).
Proof.
  intros Hzip Htar. unfold packDir.
  destruct (last (split dot outputFilePath)) as [fmt|]; [|done].
  unfold isValidFormat, VALID_FORMATS.
  rewrite bool_decide_eq_false_2; [done|].
  rewrite !elem_of_cons, elem_of_nil.
  intros [->|[->|[]]]; [by apply Hzip | by apply Htar].
Qed.

Lemma project_same_tree :
  same_tree Simulation.project Simulation.project_reordered.
Proof.
  constructor.
  eapply same_trans; [apply same_swap|].
  apply same_skip; [apply same_tree_refl|]. apply same_swap.
Qed.

Lemma packDir_deterministic_witness :
  artifact (packDir Simulation.sim_archiver
              (Simulation.file_system Simulation.project)
              "/src" "/tmp/first.zip" (Some ["/shims/shim.js"]) (Some []))
  = artifact (packDir Simulation.sim_archiver
                (Simulation.file_system Simulation.project_reordered)
                "/src" "/tmp/second.zip" (Some ["/shims/shim.js"]) (Some [])).
Proof.
  refine (proj1 (packDir_deterministic _ _ _ _ _ _ _ _ _ _ _)).
  - simpl. constructor. apply project_same_tree.
  - reflexivity.
  - reflexivity.
Defined.

Lemma packDir_invalid_format_witness :
  packDir Simulation.sim_archiver (Simulation.file_system Simulation.project)
    "/src" "/tmp/archive.tar.gz" (Some []) (Some [])
  = ([], Throw (Error invalid_format_message)).
Proof.
  apply packDir_invalid_format; vm_compute; discriminate.
Defined.

(** C4 (fails on the code): [pack] called with dependency packaging
    disabled hands [packDir] the pattern for the vendored dependencies, and
    [packDir] builds its pattern list from it but never consults the list:
    the file under node_modules is read and archived, and the run is the
    one of [pack] with dependency packaging enabled. *)
Lemma pack_keeps_excluded_dependencies :
  let fs := Simulation.file_system Simulation.project in
  let pack_with packDeps :=
    pack Simulation.sim_archiver (λ _, false) (λ p, p) "/tmp" "k3x9"
         fs "/src" [] packDeps in
  (pack_with false).2 = Return "/tmp/k3x9.zip"
  ∧ IoCreateReadStream "/src/node_modules/dep.js" ∈ (pack_with false).1
  ∧ ("/node_modules/dep.js", epoch) ∈ appended (pack_with false)
  ∧ pack_with false = pack_with true.
Proof.
  vm_compute. split_and!; [done|set_solver..|done].
Qed.

End ArchiveFacts.

(** ** The backend wrappers and the component *)
Section ComponentFacts.
Import Js AwsLambda.
Context {W : Type} (P : Platform W).

Lemma bind_run {A B} (m : M W A) (f : A → M W B) this :
  (m ≫= f) this =
    match m this with
    | (Return a, this') => f a this'
    | (Throw e, this') => (Throw e, this')
    | (OutOfFuel, this') => (OutOfFuel, this')
    end.
Proof. reflexivity. Qed.

Lemma call_run {A} lambda r (op : W → (exn + A) * W) this :
  call lambda r op this =
    (match (op (world this)).1 with inl e => Throw e | inr a => Return a end,
     called lambda r (op (world this)).2 this).
Proof.
  unfold call, perform, emit, called. rewrite bind_run. simpl.
  by destruct (op (world this)).
Qed.

(** *** The remote state reader *)

Lemma getLambda_found lambda name this res w :
  lambda_getFunctionConfiguration P lambda name (world this) = (inr res, w) →
  getLambda P lambda name this
  = (Return (Some (observed_of res)),
     called lambda (Aws.CallGetFunctionConfiguration name) w this).
Proof.
  intros Hanswer. unfold getLambda, try_catch.
  by rewrite bind_run, call_run, Hanswer.
Qed.

Lemma getLambda_not_found lambda name this e w :
  lambda_getFunctionConfiguration P lambda name (world this) = (inl e, w) →
  exn_code e = Some "ResourceNotFoundException" →
  getLambda P lambda name this
  = (Return None, called lambda (Aws.CallGetFunctionConfiguration name) w this).
Proof.
  intros Hanswer Hcode. unfold getLambda, try_catch.
  rewrite bind_run, call_run, Hanswer. simpl.
  by rewrite bool_decide_eq_true_2.
Qed.

Lemma getLambda_error lambda name this e w :
  lambda_getFunctionConfiguration P lambda name (world this) = (inl e, w) →
  exn_code e ≠ Some "ResourceNotFoundException" →
  getLambda P lambda name this
  = (Throw e, called lambda (Aws.CallGetFunctionConfiguration name) w this).
Proof.
  intros Hanswer Hcode. unfold getLambda, try_catch.
  rewrite bind_run, call_run, Hanswer. simpl.
  by rewrite bool_decide_eq_false_2.
Qed.

(** *** The update branch reads a property the observed record lacks *)

Lemma observed_of_architectures res :
  Observed.architectures (observed_of res) = None.
Proof. reflexivity. Qed.

Lemma configChanged_set_arn prevLambda arn config :
  configChanged prevLambda (set_arn arn config) = configChanged prevLambda config.
Proof. reflexivity. Qed.

(** Whenever the function exists and a compared field differs, [default]
    throws at the read of [prevLambda.architectures[0]], the read of the
    remote state being the only backend call made. *)
Lemma default_reconcile_changed fuel lambda config this res w :
  lambda_getFunctionConfiguration P lambda (Config.name config) (world this)
    = (inr res, w) →
  configChanged (observed_of res) config = true →
  default_reconcile P fuel lambda config this
  = (Throw (TypeError undefined_index_message),
     called lambda (Aws.CallGetFunctionConfiguration (Config.name config)) w this).
Proof.
  intros Hanswer Hchanged. unfold default_reconcile.
  rewrite bind_run, (getLambda_found _ _ _ _ _ Hanswer).
  rewrite bind_run. rewrite configChanged_set_arn, Hchanged.
  reflexivity.
Qed.

(** *** The readiness waiter *)

Lemma waitUntilReady_loop_ready fuel lambda startTime fnName pollInterval this res w :
  now P (world this) - startTime < waitDurationMillis →
  lambda_getFunction P lambda fnName (world this) = (inr res, w) →
  ready res = true →
  waitUntilReady_loop P (S fuel) lambda startTime fnName pollInterval this
  = (Return true, called lambda (Aws.CallGetFunction fnName) w this).
Proof.
  intros Htime Hanswer Hready. cbn [waitUntilReady_loop].
  rewrite bind_run. cbn beta iota.
  rewrite bool_decide_eq_true_2 by done.
  rewrite bind_run, call_run, Hanswer. cbn [fst snd].
  by rewrite Hready.
Qed.

Lemma waitUntilReady_loop_expired fuel lambda startTime fnName pollInterval this :
  waitDurationMillis ≤ now P (world this) - startTime →
  waitUntilReady_loop P (S fuel) lambda startTime fnName pollInterval this
  = (Return false, this).
Proof.
  intros Htime. cbn [waitUntilReady_loop].
  rewrite bind_run. cbn beta iota.
  rewrite bool_decide_eq_false_2 by lia. done.
Qed.

Lemma waitUntilReady_loop_retry fuel lambda startTime fnName pollInterval this res w :
  now P (world this) - startTime < waitDurationMillis →
  lambda_getFunction P lambda fnName (world this) = (inr res, w) →
  ready res = false →
  waitUntilReady_loop P (S fuel) lambda startTime fnName pollInterval this
  = waitUntilReady_loop P fuel lambda startTime fnName pollInterval
      {| world := setTimeout P pollInterval w; state := state this;
         log := log this ++ poll_events lambda fnName pollInterval |}.
Proof.
  intros Htime Hanswer Hready. cbn [waitUntilReady_loop].
  rewrite bind_run. cbn beta iota.
  rewrite bool_decide_eq_true_2 by done.
  rewrite bind_run, call_run, Hanswer. cbn [fst snd].
  rewrite Hready, !bind_run. unfold poll_events, called. cbn.
  by rewrite <- app_assoc.
Qed.

(** The loop answers [false] only once the maximum wait has passed. *)
Lemma waitUntilReady_loop_false fuel lambda startTime fnName pollInterval this this' :
  waitUntilReady_loop P fuel lambda startTime fnName pollInterval this
    = (Return false, this') →
  waitDurationMillis ≤ now P (world this') - startTime.
Proof.
  revert this. induction fuel as [|fuel IH]; intros this Hrun; [done|].
  cbn [waitUntilReady_loop] in Hrun. rewrite bind_run in Hrun.
  cbn beta iota in Hrun. case_bool_decide as Htime.
  - rewrite bind_run, call_run in Hrun.
    destruct (lambda_getFunction P lambda fnName (world this)) as [[e|res] w];
      cbn [fst snd] in Hrun; [done|].
    destruct (ready res); [done|].
    rewrite !bind_run in Hrun. cbn in Hrun. by apply IH in Hrun.
  - injection Hrun as <-. lia.
Qed.

Section NeverReady.
Variables (lambda : Aws.Client) (fnName : string) (pollInterval : Z).

(** The worlds the backend stays in while the function does not settle. *)
Variable unsettled : W → Prop.

Hypothesis interval_positive : 0 < pollInterval.

Hypothesis poll_unsettled : ∀ w, unsettled w →
  ∃ res w', lambda_getFunction P lambda fnName w = (inr res, w')
            ∧ ready res = false ∧ unsettled w' ∧ now P w ≤ now P w'.

Hypothesis pause_unsettled : ∀ w, unsettled w →
  unsettled (setTimeout P pollInterval w)
  ∧ now P w + pollInterval ≤ now P (setTimeout P pollInterval w).

Lemma waitUntilReady_loop_timeout startTime (n : nat) :
  ∀ this fuel,
    unsettled (world this) →
    startTime + waitDurationMillis - now P (world this)
      ≤ Z.of_nat n * pollInterval →
    (n < fuel)%nat →
    ∃ (polls : nat) this',
      waitUntilReady_loop P fuel lambda startTime fnName pollInterval this
      = (Return false, this')
      ∧ state this' = state this
      ∧ log this'
        = log this ++ concat (replicate polls (poll_events lambda fnName pollInterval))
      ∧ (polls ≤ n)%nat.
Proof.
  induction n as [|n IH]; intros this fuel Hw Hleft Hfuel;
    (destruct fuel as [|fuel]; [lia|]).
  - exists 0%nat, this.
    rewrite waitUntilReady_loop_expired by lia.
    simpl. by rewrite app_nil_r.
  - destruct (decide (now P (world this) - startTime < waitDurationMillis))
      as [Htime|Htime].
    + destruct (poll_unsettled _ Hw) as (res & w & Hanswer & Hready & Hw' & Hclock).
      destruct (pause_unsettled _ Hw') as [Hw'' Hpause].
      rewrite (waitUntilReady_loop_retry _ _ _ _ _ _ _ _ Htime Hanswer Hready).
      destruct (IH {| world := setTimeout P pollInterval w; state := state this;
                      log := log this ++ poll_events lambda fnName pollInterval |}
                   fuel) as (polls & this' & Hrun & Hstate & Hlog & Hpolls).
      * done.
      * simpl. rewrite Nat2Z.inj_succ, Z.mul_succ_l in Hleft. lia.
      * lia.
      * exists (S polls), this'. split_and!.
        -- exact Hrun.
        -- exact Hstate.
        -- rewrite Hlog. cbn. by rewrite <- app_assoc.
        -- lia.
    + exists 0%nat, this.
      rewrite waitUntilReady_loop_expired by lia.
      split_and!; [done|done|by rewrite app_nil_r|lia].
Qed.

(** If the function never settles, the waiter gives up with [false]
    after at most [600000 / pollInterval + 1] polls, all of them the same
    interval apart; it throws nothing. *)
Lemma waitUntilReady_timeout this fuel :
  unsettled (world this) →
  (Z.to_nat (waitDurationMillis / pollInterval) + 1 < fuel)%nat →
  ∃ (polls : nat) this',
    waitUntilReady P fuel lambda fnName (Some pollInterval) this
    = (Return false, this')
    ∧ state this' = state this
    ∧ log this'
      = log this
        ++ Debug ("Waiting up to 600 seconds for Lambda " +:+ fnName
                  +:+ " to be ready.")
        :: concat (replicate polls (poll_events lambda fnName pollInterval)).
Proof.
  intros Hw Hfuel. unfold waitUntilReady, debug, emit.
  rewrite !bind_run. cbn beta iota.
  edestruct (waitUntilReady_loop_timeout (now P (world this))
               (Z.to_nat (waitDurationMillis / pollInterval) + 1))
    as (polls & this' & Hrun & Hstate & Hlog & _); [| |exact Hfuel|].
  3: { exists polls, this'. rewrite Hrun.
       split_and!; [done|done|].
       rewrite Hlog. cbn [log]. by rewrite <- app_assoc. }
  - done.
  - cbn [world].
    assert (0 ≤ waitDurationMillis / pollInterval)
      by (apply Z.div_pos; [done|lia]).
    rewrite Nat2Z.inj_add, Z2Nat.id by done.
    pose proof (Z.mod_pos_bound waitDurationMillis pollInterval interval_positive).
    pose proof (Z.div_mod waitDurationMillis pollInterval).
    nia.
Qed.

End NeverReady.

(** C8: the waiter polls [getFunction] every [pollInterval] milliseconds,
    5000 when the argument is omitted.  A poll that shows the function
    [Active] and [Successful] ends it with [true] at once, be it the first
    poll or a later one.  It answers [false] only once 600000 ms have
    passed.  If the function never shows that state, the waiter does end
    with [false], not with an exception: after at most
    [600000 / pollInterval + 1] polls, the same pause after each. *)
Theorem waitUntilReady_polls (lambda : Aws.Client) (fnName : string)
    (pollInterval : option Z) :
  let interval := match pollInterval with Some ms => ms | None => 5000 end in
  (∀ fuel this res w,
     lambda_getFunction P lambda fnName (world this) = (inr res, w) →
     ready res = true →
     waitUntilReady P (S fuel) lambda fnName pollInterval this
     = (Return true,
        {| world := w; state := state this;
           log := log this
                  ++ [Debug ("Waiting up to 600 seconds for Lambda " +:+ fnName
                             +:+ " to be ready.");
                      Call lambda (Aws.CallGetFunction fnName)] |}))
  ∧ (∀ fuel startTime this res w,
       now P (world this) - startTime < waitDurationMillis →
       lambda_getFunction P lambda fnName (world this) = (inr res, w) →
       ready res = true →
       waitUntilReady_loop P (S fuel) lambda startTime fnName interval this
       = (Return true, called lambda (Aws.CallGetFunction fnName) w this))
  ∧ (∀ fuel this this',
       waitUntilReady P fuel lambda fnName pollInterval this = (Return false, this') →
       waitDurationMillis ≤ now P (world this') - now P (world this))
  ∧ (∀ unsettled : W → Prop,
       0 < interval →
       (∀ w, unsettled w →
          ∃ res w', lambda_getFunction P lambda fnName w = (inr res, w')
                    ∧ ready res = false ∧ unsettled w' ∧ now P w ≤ now P w') →
       (∀ w, unsettled w →
          unsettled (setTimeout P interval w)
          ∧ now P w + interval ≤ now P (setTimeout P interval w)) →
       ∀ this fuel,
         unsettled (world this) →
         (Z.to_nat (waitDurationMillis / interval) + 1 < fuel)%nat →
         ∃ (polls : nat) this',
           waitUntilReady P fuel lambda fnName pollInterval this
           = (Return false, this')
           ∧ state this' = state this
           ∧ log this'
             = log this
               ++ Debug ("Waiting up to 600 seconds for Lambda " +:+ fnName
                         +:+ " to be ready.")
               :: concat (replicate polls (poll_events lambda fnName interval))).
Proof.
  intros interval. split_and!.
  - intros fuel this res w Hanswer Hready. unfold waitUntilReady, debug, emit.
    rewrite !bind_run. cbn beta iota.
    erewrite waitUntilReady_loop_ready; [|cbn; unfold waitDurationMillis; lia|done..].
    unfold called. cbn. by rewrite <- app_assoc.
  - intros. by eapply waitUntilReady_loop_ready.
  - intros fuel this this' Hrun. unfold waitUntilReady, debug, emit in Hrun.
    rewrite !bind_run in Hrun. cbn beta iota in Hrun.
    by apply waitUntilReady_loop_false in Hrun.
  - intros unsettled Hpos Hpoll Hpause this fuel Hw Hfuel.
    destruct (waitUntilReady_timeout lambda fnName interval unsettled
                Hpos Hpoll Hpause this fuel Hw Hfuel)
      as (polls & this' & Hrun & Hstate & Hlog).
    exists polls, this'. split_and!; [|done..].
    rewrite <- Hrun. by destruct pollInterval.
Qed.

(** *** Classified backend errors *)

Lemma deleteLambda_not_found lambda name this e w :
  lambda_deleteFunction P lambda name (world this) = (inl e, w) →
  exn_code e = Some "ResourceNotFoundException" →
  deleteLambda P lambda name this
  = (Return tt, called lambda (Aws.CallDeleteFunction name) w this).
Proof.
  intros Hanswer Hcode. unfold deleteLambda, try_catch.
  rewrite call_run, Hanswer. cbn [fst snd].
  by rewrite bool_decide_eq_false_2 by (by intros []).
Qed.

Lemma deleteLambda_error lambda name this e w :
  lambda_deleteFunction P lambda name (world this) = (inl e, w) →
  exn_code e ≠ Some "ResourceNotFoundException" →
  deleteLambda P lambda name this
  = (Throw e, called lambda (Aws.CallDeleteFunction name) w this).
Proof.
  intros Hanswer Hcode. unfold deleteLambda, try_catch.
  rewrite call_run, Hanswer. cbn [fst snd].
  by rewrite bool_decide_eq_true_2.
Qed.

Lemma deleteLambda_done lambda name this w :
  lambda_deleteFunction P lambda name (world this) = (inr tt, w) →
  deleteLambda P lambda name this
  = (Return tt, called lambda (Aws.CallDeleteFunction name) w this).
Proof.
  intros Hanswer. unfold deleteLambda, try_catch.
  by rewrite call_run, Hanswer.
Qed.

Lemma createAlias_conflict alias version this e w :
  lambda_createAlias P (alias_client this) (alias_params alias version this)
    (world this) = (inl e, w) →
  exn_code e = Some "ResourceConflictException" →
  createAlias P alias version this
  = (Return tt,
     {| world := w; state := state this;
        log := log this
               ++ [Call (alias_client this)
                        (Aws.CallCreateAlias (alias_params alias version this));
                   Debug "Alias already exists. Cool."] |}).
Proof.
  intros Hanswer Hcode. unfold createAlias, try_catch, get_state.
  rewrite bind_run. cbn beta iota.
  fold (alias_client this) (alias_params alias version this).
  rewrite call_run, Hanswer. cbn [fst snd].
  rewrite bool_decide_eq_true_2 by done.
  unfold debug, emit, called. cbn. by rewrite <- app_assoc.
Qed.

Lemma createAlias_error alias version this e w :
  lambda_createAlias P (alias_client this) (alias_params alias version this)
    (world this) = (inl e, w) →
  exn_code e ≠ Some "ResourceConflictException" →
  createAlias P alias version this
  = (Throw (ErrorOf e),
     called (alias_client this)
            (Aws.CallCreateAlias (alias_params alias version this)) w this).
Proof.
  intros Hanswer Hcode. unfold createAlias, try_catch, get_state.
  rewrite bind_run. cbn beta iota.
  fold (alias_client this) (alias_params alias version this).
  rewrite call_run, Hanswer. cbn [fst snd].
  by rewrite bool_decide_eq_false_2.
Qed.

(** C7: a rejected read of the remote state gives the absent result [None]
    when the error is the not-found one and throws the error otherwise; a
    rejected delete is a success when the error is the not-found one (and
    throws the error otherwise); a rejected alias creation is a success
    when the error is the resource-conflict one and throws otherwise. *)
Theorem classified_errors (lambda : Aws.Client) (name alias version : string)
    (this : Instance W) (e : exn) (w : W) :
  (lambda_getFunctionConfiguration P lambda name (world this) = (inl e, w) →
     (exn_code e = Some "ResourceNotFoundException" →
        getLambda P lambda name this
        = (Return None,
           called lambda (Aws.CallGetFunctionConfiguration name) w this))
     ∧ (exn_code e ≠ Some "ResourceNotFoundException" →
          getLambda P lambda name this
          = (Throw e,
             called lambda (Aws.CallGetFunctionConfiguration name) w this)))
  ∧ (lambda_deleteFunction P lambda name (world this) = (inl e, w) →
       (exn_code e = Some "ResourceNotFoundException" →
          deleteLambda P lambda name this
          = (Return tt, called lambda (Aws.CallDeleteFunction name) w this))
       ∧ (exn_code e ≠ Some "ResourceNotFoundException" →
            deleteLambda P lambda name this
            = (Throw e, called lambda (Aws.CallDeleteFunction name) w this)))
  ∧ (lambda_createAlias P (alias_client this) (alias_params alias version this)
       (world this) = (inl e, w) →
       (exn_code e = Some "ResourceConflictException" →
          (createAlias P alias version this).1 = Return tt)
       ∧ (exn_code e ≠ Some "ResourceConflictException" →
            createAlias P alias version this
            = (Throw (ErrorOf e),
               called (alias_client this)
                      (Aws.CallCreateAlias (alias_params alias version this))
                      w this))).
Proof.
  split_and!; intros Hanswer; split; intros Hcode.
  - by eapply getLambda_not_found.
  - by apply getLambda_error.
  - by eapply deleteLambda_not_found.
  - by apply deleteLambda_error.
  - by rewrite (createAlias_conflict _ _ _ _ _ Hanswer Hcode).
  - by apply createAlias_error.
Qed.

(** *** The reconciler *)

Lemma configChanged_false prevLambda config :
  configChanged prevLambda config = false ↔ same_on_compared_keys prevLambda config.
Proof.
  unfold configChanged, same_on_compared_keys.
  rewrite negb_false_iff, bool_decide_eq_true.
  destruct prevLambda as [? ? ? ? [?] ? ? ? ? ? ?]. simpl. split.
  - intros [= -> -> -> -> -> -> -> ->]. done.
  - intros (-> & -> & -> & -> & -> & -> & -> & ->). done.
Qed.

Lemma mutations_app events1 events2 :
  mutations (events1 ++ events2) = mutations events1 ++ mutations events2.
Proof. apply omap_app. Qed.

(** The function exists and no compared field differs: nothing is sent to
    the backend after the read, the baseline is saved. *)
Lemma default_reconcile_unchanged fuel lambda config this res w :
  lambda_getFunctionConfiguration P lambda (Config.name config) (world this)
    = (inr res, w) →
  configChanged (observed_of res) config = false →
  baseline_name_unchanged this config →
  let outputs := outputs_of (set_arn (Some (Aws.FunctionArn res)) config) in
  default_reconcile P fuel lambda config this
  = (Return outputs,
     {| world := save P (Some outputs) w;
        state := Some outputs;
        log := log this
               ++ [Call lambda (Aws.CallGetFunctionConfiguration (Config.name config));
                   Debug (deployed_message config);
                   Save (Some outputs)] |}).
Proof.
  intros Hanswer Hsame Hname outputs. unfold default_reconcile.
  rewrite bind_run, (getLambda_found _ _ _ _ _ Hanswer).
  rewrite bind_run, configChanged_set_arn, Hsame.
  cbn beta iota. unfold mret at 1, M_ret at 1. cbn beta iota.
  rewrite bind_run. unfold get_state at 1. cbn beta iota.
  rewrite bind_run. cbn [state called].
  assert (Hskip : ∀ this' : Instance W,
    match truthy (Outputs.name <$> state this) with
    | Some stateName =>
        if bool_decide (stateName
                        ≠ Config.name (set_arn (Some (Observed.arn (observed_of res))) config))
        then status "Replacing";; deleteLambda P lambda stateName
        else mret ()
    | None => mret ()
    end this' = (Return tt, this')).
  { intros this'. destruct Hname as [->| ->]; [done|].
    by rewrite bool_decide_eq_false_2 by (by intros []). }
  rewrite Hskip. unfold debug, emit, set_state, perform.
  rewrite !bind_run. cbn. by rewrite <- !app_assoc.
Qed.

Lemma mutations_Pack ios : mutations (map Pack ios) = [].
Proof. by induction ios. Qed.

Lemma bind_Return {A B} (m : M W A) (f : A → M W B) this b this' :
  (m ≫= f) this = (Return b, this') →
  ∃ a this1, m this = (Return a, this1) ∧ f a this1 = (Return b, this').
Proof.
  rewrite bind_run. destruct (m this) as [[a| |] this1]; [|done..].
  intros Hf. by exists a, this1.
Qed.

Lemma quiet_ret {A} (a : A) : quiet (mret a : M W A).
Proof. done. Qed.

Lemma quiet_throw {A} e : quiet (throw e : M W A).
Proof. done. Qed.

Lemma quiet_bind {A B} (m : M W A) (f : A → M W B) :
  quiet m → (∀ a, quiet (f a)) → quiet (m ≫= f).
Proof.
  intros Hm Hf this. rewrite bind_run. specialize (Hm this).
  destruct (m this) as [[a| |] this1]; [|done..].
  destruct (Hf a this1) as [-> ->]. done.
Qed.

Lemma quiet_try_catch {A} (m : M W A) (h : exn → M W A) :
  quiet m → (∀ e, quiet (h e)) → quiet (try_catch m h).
Proof.
  intros Hm Hh this. unfold try_catch. specialize (Hm this).
  destruct (m this) as [[a|e|] this1]; [done| |done].
  destruct (Hh e this1) as [-> ->]. done.
Qed.

Lemma quiet_emit ev :
  (∀ lambda r, ev = Call lambda r → Aws.mutating r = false) → quiet (emit ev : M W unit).
Proof.
  intros Hev this. unfold emit. cbn. split; [done|].
  rewrite mutations_app. cbn.
  destruct ev; cbn; rewrite ?app_nil_r; try done.
  by rewrite (Hev _ _ eq_refl), app_nil_r.
Qed.

Lemma quiet_perform {A} (op : W → (exn + A) * W) : quiet (perform op).
Proof. intros this. unfold perform. by destruct (op (world this)). Qed.

Lemma quiet_pack code shims packDeps : quiet (pack P code shims packDeps).
Proof.
  intros this. unfold pack.
  destruct (if isArchivePath P code then _ else _) as [rnd w]. cbn.
  by rewrite mutations_app, mutations_Pack, app_nil_r.
Qed.

Lemma quiet_waitUntilReady_loop fuel lambda startTime fnName pollInterval :
  quiet (waitUntilReady_loop P fuel lambda startTime fnName pollInterval).
Proof.
  induction fuel as [|fuel IH]; [done|]. cbn [waitUntilReady_loop].
  apply quiet_bind; [done|]. intros time.
  case_bool_decide; [|done].
  apply quiet_bind.
  - apply quiet_bind; [by apply quiet_emit; intros ? ? [= <- <-]|].
    intros _. apply quiet_perform.
  - intros res. destruct (ready res); [done|].
    apply quiet_bind; [by apply quiet_emit|]. intros _.
    apply quiet_bind; [apply quiet_perform|]. intros _. apply IH.
Qed.

(** The waiter only reads. *)
Lemma quiet_waitUntilReady fuel lambda fnName pollInterval :
  quiet (waitUntilReady P fuel lambda fnName pollInterval).
Proof.
  unfold waitUntilReady. apply quiet_bind; [done|]. intros startTime.
  apply quiet_bind; [by apply quiet_emit|]. intros _.
  apply quiet_waitUntilReady_loop.
Qed.

Lemma quiet_default_prepare settings : quiet (default_prepare P settings).
Proof.
  unfold default_prepare, status, debug, load_role, get_state.
  repeat first
    [ apply quiet_bind; [|intros ?]
    | apply quiet_ret
    | apply quiet_perform
    | apply quiet_pack
    | by apply quiet_emit
    | done
    | case_match ].
Qed.

(** Lines 55-94 make no call on the backend and leave [this.state] alone;
    the name they choose is the baseline's whenever that one is usable. *)
Lemma default_prepare_spec settings this lambda config this1 :
  default_prepare P settings this = (Return (lambda, config), this1) →
  state this1 = state this
  ∧ mutations (log this1) = mutations (log this)
  ∧ baseline_name_unchanged this1 config
  ∧ Config.settings config = settings
  ∧ Config.arn config = None
  ∧ lambda = {| Aws.region := Some (Settings.region settings);
                Aws.maxRetries := 10 |}.
Proof.
  intros Hrun.
  destruct (quiet_default_prepare settings this) as [Hstate Hlog].
  rewrite Hrun in Hstate, Hlog. cbn in Hstate, Hlog.
  split_and!; [done|done|..]; unfold default_prepare in Hrun;
    apply bind_Return in Hrun as ([] & this2 & Hstatus & Hrun);
    apply bind_Return in Hrun as (this_state & this3 & Hget & Hrun);
    apply bind_Return in Hrun as (name & this4 & Hname & Hrun);
    repeat (apply bind_Return in Hrun as (? & ? & _ & Hrun));
    injection Hrun as <- <- <-; [|done..].
  unfold baseline_name_unchanged. rewrite Hstate. cbn.
  injection Hstatus as <-. injection Hget as <- <-. cbn in Hname.
  destruct (truthy (Outputs.name <$> state this)) as [stateName|]; [|by left].
  injection Hname as <- _. by right.
Qed.

Lemma default_run fuel settings this lambda config this1 :
  default_prepare P settings this = (Return (lambda, config), this1) →
  default P fuel settings this = default_reconcile P fuel lambda config this1.
Proof. intros Hprepare. unfold default. by rewrite bind_run, Hprepare. Qed.

(** The function exists, no compared field differs, but the baseline names
    another function: the only mutating call is the delete of that one. *)
Lemma default_reconcile_unchanged_renamed fuel lambda config this res w stateName :
  lambda_getFunctionConfiguration P lambda (Config.name config) (world this)
    = (inr res, w) →
  configChanged (observed_of res) config = false →
  truthy (Outputs.name <$> state this) = Some stateName →
  stateName ≠ Config.name config →
  mutations (log (default_reconcile P fuel lambda config this).2)
  = mutations (log this) ++ [Aws.CallDeleteFunction stateName].
Proof.
  intros Hanswer Hsame Hname Hrenamed. unfold default_reconcile.
  rewrite bind_run, (getLambda_found _ _ _ _ _ Hanswer).
  rewrite bind_run, configChanged_set_arn, Hsame.
  cbn beta iota. unfold mret at 1, M_ret at 1. cbn beta iota.
  rewrite bind_run. unfold get_state at 1. cbn beta iota.
  rewrite bind_run. cbn [state called]. rewrite Hname.
  rewrite bool_decide_eq_true_2 by done.
  unfold status, deleteLambda, try_catch. rewrite bind_run. cbn.
  rewrite call_run. cbn [world].
  destruct (lambda_deleteFunction P lambda stateName w) as [[e|[]] w'];
    cbn [fst snd]; cbn beta iota; [destruct (bool_decide _)|];
    unfold debug, emit, set_state, perform, throw, called;
    repeat (progress (unfold mbind, M_bind, mret, M_ret; cbn -[mutations]));
    rewrite !mutations_app; cbn;
    by rewrite ?app_nil_r.
Qed.

(** C3: when the function exists and the observed configuration equals the
    desired one on every compared key, the reconciler sends nothing that
    changes the backend: no create, no code update, no config update, and
    no delete unless the baseline names another function (then the delete
    of that one is the only such call).  A run of [default] never is in
    that last case: it returns the outputs and saves them as the baseline
    with no mutating call at all. *)
Theorem unchanged_is_noop (fuel : nat) (lambda : Aws.Client) (config : Config.t)
    (this : Instance W) (res : Aws.FunctionConfiguration) (w : W) :
  lambda_getFunctionConfiguration P lambda (Config.name config) (world this)
    = (inr res, w) →
  same_on_compared_keys (observed_of res) config →
  let outputs := outputs_of (set_arn (Some (Aws.FunctionArn res)) config) in
  (baseline_name_unchanged this config →
     ∃ final, default_reconcile P fuel lambda config this = (Return outputs, final)
              ∧ mutations (log final) = mutations (log this)
              ∧ state final = Some outputs
              ∧ world final = save P (Some outputs) w)
  ∧ (∀ stateName,
       truthy (Outputs.name <$> state this) = Some stateName →
       stateName ≠ Config.name config →
       mutations (log (default_reconcile P fuel lambda config this).2)
       = mutations (log this) ++ [Aws.CallDeleteFunction stateName])
  ∧ (∀ settings this0,
       default_prepare P settings this0 = (Return (lambda, config), this) →
       ∃ final, default P fuel settings this0 = (Return outputs, final)
                ∧ mutations (log final) = mutations (log this0)
                ∧ state final = Some outputs
                ∧ world final = save P (Some outputs) w).
Proof.
  intros Hanswer Hsame outputs.
  apply configChanged_false in Hsame.
  assert (Hnoop : baseline_name_unchanged this config →
     ∃ final, default_reconcile P fuel lambda config this = (Return outputs, final)
              ∧ mutations (log final) = mutations (log this)
              ∧ state final = Some outputs
              ∧ world final = save P (Some outputs) w).
  { intros Hname. eexists. split.
    - by apply default_reconcile_unchanged.
    - cbn. rewrite mutations_app. cbn. by rewrite app_nil_r. }
  split_and!.
  - exact Hnoop.
  - intros stateName Hname Hrenamed.
    by eapply default_reconcile_unchanged_renamed.
  - intros settings this0 Hprepare.
    destruct (default_prepare_spec _ _ _ _ _ Hprepare)
      as (_ & Hlog & Hname & _).
    destruct (Hnoop Hname) as (final & Hrun & Hfinal & Hstate & Hworld).
    exists final. rewrite (default_run _ _ _ _ _ _ Hprepare).
    split_and!; [done| |done|done]. by rewrite Hfinal.
Qed.

Lemma quiet_code_source zipPath bucket : quiet (code_source P zipPath bucket).
Proof.
  unfold code_source. destruct (truthy bucket); [done|].
  apply quiet_bind; [by apply quiet_emit|]. intros _.
  apply quiet_bind; [apply quiet_perform|done].
Qed.

(** The function is absent, the artifact is there, the create call and the
    wait go through: one create call, the ARN and the hash the backend
    answered go into the saved baseline. *)
Lemma default_reconcile_absent fuel lambda config this e w1 Code this2 res w3
    settled this4 :
  lambda_getFunctionConfiguration P lambda (Config.name config) (world this)
    = (inl e, w1) →
  exn_code e = Some "ResourceNotFoundException" →
  code_source P (Config.zipPath config) (Settings.bucket config)
    {| world := w1; state := state this;
       log := log this
              ++ [Call lambda (Aws.CallGetFunctionConfiguration (Config.name config));
                  Debug (creating_message config)] |}
    = (Return Code, this2) →
  lambda_createFunction P lambda (createLambda_params config Code) (world this2)
    = (inr res, w3) →
  waitUntilReady P fuel lambda (Config.name config) None
    (called lambda (Aws.CallCreateFunction (createLambda_params config Code)) w3 this2)
    = (Return settled, this4) →
  baseline_name_unchanged this config →
  let outputs :=
    outputs_of (set_hash (Aws.CodeSha256 res)
                  (set_arn (Some (Aws.FunctionArn res)) config)) in
  default_reconcile P fuel lambda config this
  = (Return outputs,
     {| world := save P (Some outputs) (world this4);
        state := Some outputs;
        log := log this4 ++ [Debug (deployed_message config); Save (Some outputs)] |})
  ∧ mutations (log this4 ++ [Debug (deployed_message config); Save (Some outputs)])
    = mutations (log this)
      ++ [Aws.CallCreateFunction (createLambda_params config Code)].
Proof.
  intros Hanswer Hcode Hsource Hcreate Hwait Hname outputs.
  destruct (quiet_code_source (Config.zipPath config) (Settings.bucket config)
              {| world := w1; state := state this;
                 log := log this
                        ++ [Call lambda (Aws.CallGetFunctionConfiguration
                                           (Config.name config));
                            Debug (creating_message config)] |})
    as [Hstate2 Hlog2].
  rewrite Hsource in Hstate2, Hlog2. cbn in Hstate2, Hlog2.
  destruct (quiet_waitUntilReady fuel lambda (Config.name config) None
              (called lambda (Aws.CallCreateFunction (createLambda_params config Code))
                      w3 this2))
    as [Hstate4 Hlog4].
  rewrite Hwait in Hstate4, Hlog4. cbn in Hstate4, Hlog4.
  split.
  - unfold default_reconcile.
    rewrite bind_run, (getLambda_not_found _ _ _ _ _ Hanswer Hcode).
    rewrite bind_run. cbn beta iota.
    rewrite bind_run. unfold debug at 1, emit at 1. cbn beta iota.
    rewrite bind_run. unfold createLambda.
    rewrite bind_run. unfold called in *. cbn [world state log].
    rewrite <- app_assoc. cbn [app].
    rewrite Hsource. rewrite bind_run, call_run, Hcreate. unfold called. cbn [fst snd].
    cbn beta iota. unfold mret at 1, M_ret at 1. cbn [fst snd set_arn set_hash Config.name].
    rewrite bind_run, Hwait. cbn beta iota.
    unfold mret at 1, M_ret at 1.
    rewrite bind_run. unfold get_state at 1. cbn beta iota.
    rewrite bind_run. rewrite Hstate4, Hstate2.
    assert (Hskip : ∀ (config' : Config.t) (this' : Instance W),
      Config.name config' = Config.name config →
      match truthy (Outputs.name <$> state this) with
      | Some stateName =>
          if bool_decide (stateName ≠ Config.name config')
          then status "Replacing";; deleteLambda P lambda stateName
          else mret ()
      | None => mret ()
      end this' = (Return tt, this')).
    { intros config' this' ->. destruct Hname as [->| ->]; [done|].
      by rewrite bool_decide_eq_false_2 by (by intros []). }
    rewrite Hskip by done.
    unfold debug, emit, set_state, perform.
    repeat (progress (unfold mbind, M_bind, mret, M_ret; cbn)).
    by rewrite <- !app_assoc.
  - rewrite mutations_app, Hlog4. unfold called. cbn [log].
    rewrite mutations_app, Hlog2, !mutations_app. cbn.
    by rewrite !app_nil_r.
Qed.


(** C10: the record [getLambda] builds never has an [architectures]
    property, and the update branch of [default] reads
    [prevLambda.architectures[0]] with no guard.  So in every run where the
    function exists and a compared field differs, the architecture test is
    made on an absent property, never on the architecture the backend
    holds: the read throws a [TypeError], and the read of the remote state
    stays the only backend call of the run. *)
Theorem architectures_read_from_absent_property :
  (∀ res, Observed.architectures (observed_of res) = None)
  ∧ (∀ fuel lambda config this res w,
       lambda_getFunctionConfiguration P lambda (Config.name config) (world this)
         = (inr res, w) →
       configChanged (observed_of res) config = true →
       default_reconcile P fuel lambda config this
       = (Throw (TypeError undefined_index_message),
          called lambda (Aws.CallGetFunctionConfiguration (Config.name config))
                 w this))
  ∧ (∀ fuel settings this0 lambda config this res w,
       default_prepare P settings this0 = (Return (lambda, config), this) →
       lambda_getFunctionConfiguration P lambda (Config.name config) (world this)
         = (inr res, w) →
       configChanged (observed_of res) config = true →
       (default P fuel settings this0).1 = Throw (TypeError undefined_index_message)
       ∧ mutations (log (default P fuel settings this0).2) = mutations (log this0)
       ∧ state (default P fuel settings this0).2 = state this0).
Proof.
  split_and!.
  - apply observed_of_architectures.
  - apply default_reconcile_changed.
  - intros fuel settings this0 lambda config this res w Hprepare Hanswer Hchanged.
    rewrite (default_run _ _ _ _ _ _ Hprepare).
    rewrite (default_reconcile_changed _ _ _ _ _ _ Hanswer Hchanged).
    destruct (default_prepare_spec _ _ _ _ _ Hprepare) as (Hstate & Hlog & _).
    split_and!; [done| |done].
    cbn. rewrite mutations_app, Hlog. cbn. by rewrite app_nil_r.
Qed.

End ComponentFacts.

(** ** Runs on the simulated platform *)
Section Scenarios.
Import Js AwsLambda Simulation.

(** Runs [default_prepare] and the read of the remote state on the simulated
    platform and hands the values found to [k]. *)
Ltac with_prepared settings this0 k :=
  let prepared := eval vm_compute in (default_prepare platform settings this0) in
  lazymatch prepared with
  | (Return (?lambda, ?config), ?this) =>
      let answer := eval vm_compute in
        (lambda_getFunctionConfiguration platform lambda (Config.name config)
           (world this)) in
      lazymatch answer with
      | (inr ?res, ?w) => k lambda config this res w
      end
  end.

(** A second deployment with the same inputs changes nothing. *)
Lemma unchanged_is_noop_witness :
  ∃ outputs final,
    default platform 8 settings (after first_run) = (Return outputs, final)
    ∧ mutations (log final) = [].
Proof.
  with_prepared settings (after first_run) ltac:(fun lambda config this res w =>
    destruct (unchanged_is_noop platform 8 lambda config this res w)
      as (_ & _ & Hdefault);
    [ by vm_compute
    | by vm_compute
    | destruct (Hdefault settings (after first_run)) as (final & Hrun & Hlog & _);
      [ by vm_compute | eexists _, final; split; [exact Hrun | exact Hlog] ] ]).
Defined.

(** A second deployment with another description stops at the read of
    [prevLambda.architectures[0]]. *)
Lemma architectures_read_from_absent_property_witness :
  (default platform 8 settings_redescribed (after first_run)).1
  = Throw (TypeError undefined_index_message).
Proof.
  destruct (architectures_read_from_absent_property platform) as (_ & _ & Hdefault).
  with_prepared settings_redescribed (after first_run)
    ltac:(fun lambda config this res w =>
      destruct (Hdefault 8%nat settings_redescribed (after first_run)
                  lambda config this res w) as (Hrun & _);
      [ by vm_compute | by vm_compute | by vm_compute | exact Hrun ]).
Defined.

(** Nothing deployed: the read is absent and the delete a success; an alias
    created twice is a success the second time. *)
Lemma classified_errors_witness :
  (getLambda platform client "f1" (start fresh None)).1 = Return None
  ∧ (deleteLambda platform client "f1" (start fresh None)).1 = Return tt
  ∧ (createAlias platform "live" "1"
       (after (createAlias platform "live" "1" (after first_run)))).1 = Return tt.
Proof.
  split_and!.
  - destruct (classified_errors platform client "f1" "live" "1"
                (start fresh None) not_found fresh) as (Hread & _ & _).
    destruct Hread as [Habsent _]; [by vm_compute|].
    by rewrite Habsent.
  - destruct (classified_errors platform client "f1" "live" "1"
                (start fresh None) not_found fresh) as (_ & Hdelete & _).
    destruct Hdelete as [Hgone _]; [by vm_compute|].
    by rewrite Hgone.
  - set (this := after (createAlias platform "live" "1" (after first_run))).
    destruct (classified_errors platform client "f1" "live" "1" this
                (AwsError "ResourceConflictException" "Alias already exists")
                (world this)) as (_ & _ & Halias).
    destruct Halias as [Hconflict _]; [by vm_compute|].
    by apply Hconflict.
Defined.

(** A settled function is reported at the first poll; a function that stays
    pending makes the waiter return [false]. *)
Lemma waitUntilReady_polls_witness :
  (waitUntilReady platform 1 client "f1" None (start settled None)).1 = Return true
  ∧ ∃ polls this',
      waitUntilReady platform 200 client "f1" None (start pending None)
      = (Return false, this')
      ∧ log this'
        = Debug "Waiting up to 600 seconds for Lambda f1 to be ready."
          :: concat (replicate polls (poll_events client "f1" 5000)).
Proof.
  destruct (waitUntilReady_polls platform client "f1" None)
    as (Hfirst & _ & _ & Htimeout).
  split.
  - erewrite Hfirst; [done|by vm_compute..].
  - destruct (Htimeout (λ w, function w = Some (f1 "Pending" "InProgress")))
      with (this := start pending None) (fuel := 200%nat)
      as (polls & this' & Hrun & _ & Hlog).
    + lia.
    + intros w Hw. exists {| Aws.Configuration := f1 "Pending" "InProgress" |}, w.
      cbn. unfold lookup_function. rewrite Hw. cbn. split_and!; [done..|lia].
    + intros w Hw. cbn. split; [done|lia].
    + done.
    + apply Nat.ltb_lt. by vm_compute.
    + exists polls, this'. split; [exact Hrun | exact Hlog].
Defined.

(** C2 (fails on the code): the function is deployed and the description
    differs.  With architecture and content hash unchanged the specification
    has a config-only update issued, with another architecture a code update
    followed by a config update; either way the code throws at
    [prevLambda.architectures[0]] before any update call, and the remote
    function and the baseline stay as they were.  With another architecture
    and nothing else changed, no compared field differs and the run sends
    nothing at all. *)
Lemma changed_description_sends_no_update :
  let described := default platform 8 settings_redescribed (after first_run) in
  let rearchitected := default platform 8 settings_rearchitected (after first_run) in
  let x86 := default platform 8 settings_x86 (after first_run) in
  (described.1 = Throw (TypeError undefined_index_message)
   ∧ mutations (log described.2) = []
   ∧ function (world described.2) = function (world first_run.2)
   ∧ baseline (world described.2) = baseline (world first_run.2))
  ∧ (rearchitected.1 = Throw (TypeError undefined_index_message)
     ∧ mutations (log rearchitected.2) = []
     ∧ function (world rearchitected.2) = function (world first_run.2))
  ∧ (mutations (log x86.2) = []
     ∧ function (world x86.2) = function (world first_run.2)).
Proof. by vm_compute. Qed.

(** C5 (fails on the code): on a first deployment, with the function absent,
    the one mutating call is a create call, but the architecture it carries
    is the value of the key [architecture], which the configuration does
    not have, not the configured [architectures]. *)
Lemma create_call_omits_architecture :
  Settings.architectures settings = ["arm64"]
  ∧ Settings.architecture settings = None
  ∧ ∃ p, mutations (log first_run.2) = [Aws.CallCreateFunction p]
         ∧ Aws.CreateFunction.Architectures p = [None].
Proof. vm_compute. split_and!; [done..|]. eexists. by split. Qed.

(** The function is deployed, the description differs and the backend
    would reject a config update: the run throws before the [try] block of
    lines 112-121, so no config update is sent, no error is caught and
    nothing is saved. *)
Lemma rejected_config_update_never_sent :
  let this := {| world := rejecting (world first_run.2);
                 state := state first_run.2; log := [] |} in
  let run := default platform 8 settings_redescribed this in
  run.1 = Throw (TypeError undefined_index_message)
  ∧ mutations (log run.2) = []
  ∧ List.filter caught_or_saved (log run.2) = []
  ∧ baseline (world run.2) = baseline (world first_run.2).
Proof. by vm_compute. Qed.

End Scenarios.

(** * Further properties of the code *)

(** ** Strings *)
Section StringFacts.
Import Js.

Lemma string_app_cons x (a b : string) : String x a +:+ b = String x (a +:+ b).
Proof. reflexivity. Qed.

Lemma string_app_assoc (a b c : string) : (a +:+ b) +:+ c = a +:+ b +:+ c.
Proof.
  induction a as [|x a IH]; [done|]. rewrite !string_app_cons. by f_equal.
Qed.

Lemma string_app_nil_r (a : string) : a +:+ "" = a.
Proof.
  induction a as [|x a IH]; [done|]. rewrite string_app_cons. by f_equal.
Qed.

Lemma string_app_length (a b : string) :
  String.length (a +:+ b) = (String.length a + String.length b)%nat.
Proof.
  induction a as [|x a IH]; [done|]. rewrite string_app_cons. cbn. by f_equal.
Qed.

Lemma join_snoc sep parts part :
  join sep (parts ++ [part])
  = match parts with
    | [] => part
    | _ => join sep parts +:+ sep +:+ part
    end.
Proof.
  induction parts as [|p parts IH]; [done|].
  destruct parts as [|q parts]; [done|].
  change (join sep ((p :: q :: parts) ++ [part]))
    with (p +:+ sep +:+ join sep ((q :: parts) ++ [part])).
  rewrite IH.
  change (join sep (p :: q :: parts)) with (p +:+ sep +:+ join sep (q :: parts)).
  by rewrite !string_app_assoc.
Qed.

(** Splitting at a character and joining with it gives the string back. *)
Lemma join_split sep s : join (String sep "") (split sep s) = s.
Proof.
  induction s as [|c s IH]; [done|]. simpl.
  destruct (Ascii.eqb_spec c sep) as [->|Hc].
  - pose proof (split_nonempty sep s) as Hne.
    destruct (split sep s) as [|seg segs]; [done|].
    change (join _ ("" :: seg :: segs))
      with ("" +:+ String sep "" +:+ join (String sep "") (seg :: segs)).
    by rewrite IH.
  - pose proof (split_nonempty sep s) as Hne.
    destruct (split sep s) as [|seg segs]; [done|].
    destruct segs as [|seg' segs].
    + simpl in *. by rewrite IH.
    + change (join _ (String c seg :: seg' :: segs))
        with (String c (seg +:+ String sep "" +:+ join (String sep "") (seg' :: segs))).
      by rewrite <- IH.
Qed.

(** A string whose last segment is [suffix] is [suffix] itself or ends with
    the separator followed by [suffix]. *)
Lemma last_split sep s suffix :
  last (split sep s) = Some suffix →
  s = suffix ∨ ∃ prefix, s = prefix +:+ String sep suffix.
Proof.
  intros Hlast. rewrite <- (join_split sep s).
  induction (split sep s) as [|seg segs _] using rev_ind; [done|].
  rewrite last_snoc in Hlast. injection Hlast as ->.
  rewrite join_snoc. destruct segs as [|seg' segs]; [by left|].
  right. by eexists.
Qed.

End StringFacts.

(** ** More on the archive builder *)
Section ArchiveMore.
Import Js Archive Support.

(** [getAllFiles] adds one path for every entry of the tree that is not a
    directory. *)
Lemma getAllFiles_length dirPath files arrayOfFiles :
  length (getAllFiles dirPath (Directory files) arrayOfFiles)
  = (length arrayOfFiles + leaves (Directory files))%nat.
Proof.
  assert (Hleaves : ∀ dir dirPath,
            match dir with
            | File => True
            | Directory _ => length (getAllFiles dirPath dir []) = leaves dir
            end).
  { induction dir as [|entries IH] using dirent_ind_files; [done|].
    intros path. rewrite getAllFiles_unfold. cbn [app leaves].
    induction IH as [|[file st] entries Hst _ IHentries]; [done|].
    cbn [map concat]. rewrite length_app, IHentries. f_equal.
    unfold entry_files. cbn [fst snd].
    destruct st as [|sub]; [done|]. apply (Hst (path +:+ "/" +:+ file)). }
  rewrite getAllFiles_unfold, length_app. f_equal.
  pose proof (Hleaves (Directory files) dirPath) as Hdir.
  by rewrite getAllFiles_unfold in Hdir.
Qed.

Lemma split_app_last sep a b :
  (∀ n, String.get n b ≠ Some sep) →
  ∃ init t, split sep a = init ++ [t] ∧ split sep (a +:+ b) = init ++ [t +:+ b].
Proof.
  intros Hb. induction a as [|c a (init & t & Ha & Hab)].
  - exists [], "". split; [done|]. by apply split_no_sep.
  - rewrite string_app_cons. cbn [split]. rewrite Ha, Hab.
    destruct (Ascii.eqb c sep).
    + by exists ("" :: init), t.
    + destruct init as [|seg init].
      * by exists [], (String c t).
      * by exists (String c seg :: init), t.
Qed.

Lemma ends_with_slash_app a b :
  b ≠ "" → ends_with_slash (a +:+ b) = ends_with_slash b.
Proof.
  intros Hb. induction a as [|c a IH]; [done|].
  rewrite string_app_cons. cbn [ends_with_slash]. rewrite IH.
  destruct (a +:+ b) eqn:Hab; [|done].
  by destruct a, b.
Qed.

Lemma no_slash_get s : no_slash s = true → ∀ n, String.get n s ≠ Some slash.
Proof.
  induction s as [|c s IH]; intros Hs n; [by destruct n|].
  cbn in Hs. apply andb_true_iff in Hs as [Hc Hs].
  destruct n as [|n]; [|by apply IH]. cbn. intros [= ->].
  by rewrite Ascii.eqb_refl in Hc.
Qed.

Lemma entry_name_spec name :
  entry_name name = true →
  name ≠ "" ∧ name ≠ "." ∧ name ≠ ".." ∧ ∀ n, String.get n name ≠ Some slash.
Proof.
  unfold entry_name. intros [Hname Hslash]%andb_true_iff.
  apply negb_true_iff, bool_decide_eq_false in Hname.
  split_and!; [naive_solver..|]. by apply no_slash_get.
Qed.

Lemma starts_with_slash_app a b :
  a ≠ "" → starts_with_slash (a +:+ b) = starts_with_slash a.
Proof. by destruct a. Qed.

Lemma ends_with_slash_name name :
  no_slash name = true → ends_with_slash name = false.
Proof.
  induction name as [|c name IH]; [done|]. cbn [no_slash ends_with_slash].
  intros [Hc Hname]%andb_true_iff. destruct name as [|c' name]; [|by apply IH].
  by apply negb_true_iff.
Qed.

Lemma normalize_step_blank allow res : normalize_step allow res "" = res.
Proof. unfold normalize_step. by rewrite bool_decide_eq_true_2 by by left. Qed.

Lemma normalize_step_name allow res name :
  entry_name name = true → normalize_step allow res name = res ++ [name].
Proof.
  intros (Hempty & Hdot & Hdots & _)%entry_name_spec. unfold normalize_step.
  rewrite bool_decide_eq_false_2 by (by intros [|]).
  by rewrite bool_decide_eq_false_2.
Qed.

Lemma NoDup_map_inj {A B} (f : A → B) (l : list A) :
  (∀ x y, f x = f y → x = y) → NoDup l → NoDup (map f l).
Proof. intros Hf Hl. change (NoDup (f <$> l)). by apply NoDup_fmap_2. Qed.

Lemma string_app_inj (a b c : string) : a +:+ b = a +:+ c → b = c.
Proof.
  induction a as [|x a IH]; [done|]. rewrite !string_app_cons.
  intros [= Heq]. by apply IH.
Qed.

(** [path.join(dirPath, '/', file)] is [entry_prefix dirPath] followed by
    [file]. *)
Lemma path_join_entry dirPath file :
  entry_name file = true →
  path_join [dirPath; "/"; file] = entry_prefix dirPath +:+ file.
Proof.
  intros Hfile. pose proof (entry_name_spec _ Hfile) as (Hempty & _ & _ & Hslash).
  assert (Hjoined : join "/" (filter (λ a, a ≠ "") [dirPath; "/"; file])
                    = joined_directory dirPath +:+ String slash file).
  { rewrite !filter_cons, filter_nil.
    destruct (decide (file ≠ "")) as [_|Hno]; [|by destruct Hno].
    destruct (decide ("/" ≠ "")) as [_|Hno]; [|by destruct Hno].
    unfold joined_directory. case_bool_decide as Hdir.
    - subst dirPath. by destruct (decide ("" ≠ "")).
    - destruct (decide (dirPath ≠ "")) as [_|Hno]; [|by destruct Hno]. cbn [join].
      by rewrite !string_app_assoc. }
  assert (Hdirectory : joined_directory dirPath ≠ "").
  { unfold joined_directory. case_bool_decide; [done|]. by destruct dirPath. }
  unfold path_join.
  destruct (filter (λ a, a ≠ "") [dirPath; "/"; file]) as [|part parts] eqn:Hparts.
  { cbn in Hjoined. by destruct (joined_directory dirPath). }
  rewrite Hjoined. unfold path_normalize, entry_prefix.
  rewrite bool_decide_eq_false_2 by (by destruct (joined_directory dirPath)).
  rewrite starts_with_slash_app by done.
  rewrite ends_with_slash_app by done.
  assert (Hends : ends_with_slash (String slash file) = false).
  { cbn [ends_with_slash]. destruct file as [|c file]; [done|].
    apply ends_with_slash_name.
    by apply andb_true_iff in Hfile as [_ Hfile]. }
  rewrite Hends, split_app_sep, (split_no_sep _ file Hslash), fold_left_app.
  cbn [fold_left]. rewrite normalize_step_name by done.
  set (kept := fold_left _ (split slash (joined_directory dirPath)) []).
  rewrite join_snoc.
  assert (Hbody : match kept with
                  | [] => file
                  | _ :: _ => join "/" kept +:+ "/" +:+ file
                  end
                  = match kept with
                    | [] => ""
                    | _ :: _ => join "/" kept +:+ "/"
                    end +:+ file).
  { destruct kept; [done|]. by rewrite !string_app_assoc. }
  rewrite Hbody.
  rewrite bool_decide_eq_false_2.
  2: { intros Hnil. apply (f_equal String.length) in Hnil.
       rewrite string_app_length in Hnil. destruct file; [done|]. cbn in Hnil. lia. }
  by rewrite string_app_nil_r, string_app_assoc.
Qed.

(** The prefix of the entries of a subdirectory. *)
Lemma entry_prefix_subdirectory dirPath name :
  entry_name name = true →
  entry_prefix (dirPath +:+ "/" +:+ name) = entry_prefix dirPath +:+ name +:+ "/".
Proof.
  intros Hname. pose proof (entry_name_spec _ Hname) as (Hempty & _ & _ & Hslash).
  assert (Hkept : ∀ allow path,
            fold_left (normalize_step allow) (split slash (joined_directory path)) []
            = fold_left (normalize_step allow) (split slash path) []).
  { intros allow path. unfold joined_directory. case_bool_decide as Hpath.
    - subst path. cbn. by rewrite !normalize_step_blank.
    - change (path +:+ "//") with (path +:+ String slash "/").
      rewrite split_app_sep, fold_left_app. cbn.
      by rewrite !normalize_step_blank. }
  assert (Hstart : starts_with_slash (joined_directory (dirPath +:+ "/" +:+ name))
                   = starts_with_slash (joined_directory dirPath)).
  { unfold joined_directory.
    rewrite (bool_decide_eq_false_2 (dirPath +:+ "/" +:+ name = ""))
      by (by destruct dirPath).
    case_bool_decide as Hdir; [by subst dirPath|].
    by destruct dirPath. }
  unfold entry_prefix. rewrite Hstart, !Hkept.
  change (dirPath +:+ "/" +:+ name) with (dirPath +:+ String slash name).
  rewrite split_app_sep, (split_no_sep _ name Hslash), fold_left_app.
  cbn [fold_left]. rewrite normalize_step_name by done.
  set (kept := fold_left _ (split slash dirPath) []).
  rewrite join_snoc.
  destruct kept as [|seg kept].
  - cbn [app]. by rewrite !string_app_assoc.
  - cbn [app]. by rewrite !string_app_assoc.
Qed.

Lemma well_formed_Directory files :
  well_formed (Directory files) = true →
  NoDup (map fst files)
  ∧ Forall (λ entry, entry_name entry.1 = true ∧ well_formed entry.2 = true) files.
Proof.
  cbn [well_formed]. intros [[Hnames Hproper]%andb_true_iff Hsub]%andb_true_iff.
  split; [by apply bool_decide_eq_true in Hnames|].
  clear Hnames. induction files as [|[name st] files IH]; [done|].
  cbn in Hproper. apply andb_true_iff in Hproper as [Hname Hproper].
  apply andb_true_iff in Hsub as [Hst Hsub]. constructor; [done|]. by apply IH.
Qed.

(** What [getAllFiles] lists under a directory: the files of the tree by
    their paths from the root, each behind the prefix of the directory. *)
Lemma getAllFiles_relative dir :
  ∀ dirPath,
    well_formed dir = true →
    match dir with
    | File => True
    | Directory _ =>
        getAllFiles dirPath dir []
        = map (String.append (entry_prefix dirPath)) (relative_paths dir)
    end.
Proof.
  induction dir as [|files IH] using dirent_ind_files; [done|].
  intros dirPath [_ Hfiles]%well_formed_Directory.
  rewrite getAllFiles_unfold. cbn [app relative_paths].
  induction IH as [|[name st] files Hst _ IHfiles]; [done|].
  apply Forall_cons in Hfiles as [[Hname Hsub] Hfiles]. cbn [fst snd] in Hname, Hsub.
  cbn [map concat]. rewrite map_app, (IHfiles Hfiles). f_equal.
  unfold entry_files. cbn [fst snd].
  destruct st as [|sub].
  - cbn [map]. by rewrite path_join_entry.
  - pose proof (Hst (dirPath +:+ "/" +:+ name) Hsub) as Hlisted.
    cbn [snd] in Hlisted. rewrite Hlisted, map_map.
    apply map_ext. intros path.
    rewrite entry_prefix_subdirectory by done.
    by rewrite !string_app_assoc.
Qed.

(** The first segment of a listed path is the name of an entry. *)
Lemma relative_paths_head files path :
  Forall (λ entry, entry_name entry.1 = true) files →
  path ∈ relative_paths (Directory files) →
  hd "" (split slash path) ∈ map fst files.
Proof.
  cbn [relative_paths].
  induction files as [|[name st] files IH]; intros Hnames Hpath;
    [by apply elem_of_nil in Hpath|].
  apply Forall_cons in Hnames as [Hname Hnames]. cbn [fst] in Hname.
  pose proof (entry_name_spec _ Hname) as (_ & _ & _ & Hslash).
  apply elem_of_app in Hpath as [Hpath|Hpath].
  - cbn [map fst]. apply elem_of_cons. left. destruct st as [|sub].
    + apply list_elem_of_singleton in Hpath as ->.
      by rewrite (split_no_sep _ _ Hslash).
    + apply list_elem_of_In, in_map_iff in Hpath as (rest & <- & _).
      change (name +:+ "/" +:+ rest) with (name +:+ String slash rest).
      by rewrite split_app_sep, (split_no_sep _ _ Hslash).
  - cbn [map fst]. apply elem_of_cons. right. by apply IH.
Qed.

Lemma relative_paths_NoDup dir :
  well_formed dir = true → NoDup (relative_paths dir).
Proof.
  induction dir as [|files IH] using dirent_ind_files; [constructor|].
  intros [Hnames Hfiles]%well_formed_Directory.
  assert (Hproper : Forall (λ entry, entry_name entry.1 = true) files).
  { eapply Forall_impl; [exact Hfiles|]. by intros entry [Hname _]. }
  pose proof (relative_paths_head files) as Hhead.
  cbn [relative_paths] in *.
  induction IH as [|[name st] files Hst _ IHfiles]; [constructor|].
  apply Forall_cons in Hfiles as [[Hname Hsub] Hfiles]. cbn [fst snd] in Hname, Hsub.
  apply Forall_cons in Hproper as [_ Hproper].
  cbn [map fst] in Hnames. apply NoDup_cons in Hnames as [Hfresh Hnames].
  pose proof (entry_name_spec _ Hname) as (_ & _ & _ & Hslash).
  apply NoDup_app. split_and!.
  - destruct st as [|sub]; [apply NoDup_singleton|].
    apply NoDup_map_inj; [|by apply Hst].
    intros path1 path2 Heq. by apply string_app_inj, string_app_inj in Heq.
  - intros path Hentry Hrest. apply Hfresh.
    assert (Hfirst : hd "" (split slash path) = name).
    { destruct st as [|sub].
      - apply list_elem_of_singleton in Hentry as ->.
        by rewrite (split_no_sep _ _ Hslash).
      - apply list_elem_of_In, in_map_iff in Hentry as (rest & <- & _).
        change (name +:+ "/" +:+ rest) with (name +:+ String slash rest).
        by rewrite split_app_sep, (split_no_sep _ _ Hslash). }
    rewrite <- Hfirst.
    apply (relative_paths_head files path Hproper Hrest).
  - apply IHfiles; [done..|]. intros path. apply relative_paths_head.
Qed.

(** X1: under a directory of a tree whose entries bear proper names, no
    two of one directory the same, [getAllFiles] returns its accumulator
    followed by the files of the tree, in the order of the enumeration:
    each file once, as what [path.join] gives for a plain entry, that is
    one prefix for the directory followed by the path of the file from
    there.  No path is listed twice, and a directory, empty or not, gives
    no path of its own. *)
Theorem getAllFiles_one_path_per_file dirPath :
  ∃ prefix,
    (∀ file, entry_name file = true →
       path_join [dirPath; "/"; file] = prefix +:+ file)
    ∧ ∀ files arrayOfFiles,
        well_formed (Directory files) = true →
        let added := map (String.append prefix) (relative_paths (Directory files)) in
        getAllFiles dirPath (Directory files) arrayOfFiles = arrayOfFiles ++ added
        ∧ NoDup added
        ∧ length added = leaves (Directory files).
Proof.
  exists (entry_prefix dirPath). split; [apply path_join_entry|].
  intros files arrayOfFiles Hwf added.
  assert (Hlisted : getAllFiles dirPath (Directory files) arrayOfFiles
                    = arrayOfFiles ++ added).
  { pose proof (getAllFiles_relative (Directory files) dirPath Hwf) as Hrelative.
    rewrite getAllFiles_unfold in Hrelative. cbn [app] in Hrelative.
    rewrite getAllFiles_unfold. by f_equal. }
  split_and!; [done| |].
  - subst added. apply NoDup_map_inj; [|by apply relative_paths_NoDup].
    intros path1 path2. apply string_app_inj.
  - apply (f_equal length) in Hlisted.
    rewrite getAllFiles_length, length_app in Hlisted. lia.
Qed.

(** X2: the output paths [packDir] accepts are exactly "zip", "tar" and the
    paths that end with ".zip" or ".tar". *)
Theorem accepted_output_paths outputFilePath :
  isValidFormat (last (split dot outputFilePath)) = true
  ↔ outputFilePath = "zip" ∨ outputFilePath = "tar"
    ∨ ∃ prefix, outputFilePath = prefix +:+ ".zip"
                ∨ outputFilePath = prefix +:+ ".tar".
Proof.
  split.
  - destruct (last (split dot outputFilePath)) as [fmt|] eqn:Hlast; [|done].
    unfold isValidFormat, VALID_FORMATS.
    rewrite bool_decide_eq_true, !elem_of_cons, elem_of_nil.
    apply last_split in Hlast as [->|[prefix ->]].
    + intros [->|[->|[]]]; auto.
    + intros [->|[->|[]]]; right; right; exists prefix; auto.
  - intros [->|[->|[prefix [->| ->]]]]; [done|done|..].
    + change (prefix +:+ ".zip") with (prefix +:+ "." +:+ "zip").
      by rewrite format_after_last_dot by (by intros [|[|[|[]]]]).
    + change (prefix +:+ ".tar") with (prefix +:+ "." +:+ "tar").
      by rewrite format_after_last_dot by (by intros [|[|[|[]]]]).
Qed.

(** Normalizing a path keeps a ".zip" at its end. *)
Lemma path_normalize_zip x : ∃ y, path_normalize (x +:+ ".zip") = y +:+ ".zip".
Proof.
  unfold path_normalize.
  rewrite bool_decide_eq_false_2 by (by destruct x).
  rewrite ends_with_slash_app by done.
  replace (ends_with_slash ".zip") with false by done.
  destruct (split_app_last slash x ".zip") as (init & t & _ & ->).
  { by intros [|[|[|[|[]]]]]. }
  set (allow := negb _).
  set (pre := if starts_with_slash _ then "/" else "").
  rewrite fold_left_app. cbn [fold_left].
  set (res := fold_left _ init []).
  assert (Hlen : String.length (t +:+ ".zip") = (String.length t + 4)%nat)
    by apply string_app_length.
  unfold normalize_step.
  rewrite (bool_decide_eq_false_2 (t +:+ ".zip" = "" ∨ t +:+ ".zip" = "."))
    by (intros [Hseg|Hseg]; rewrite Hseg in Hlen; cbn in Hlen; lia).
  rewrite (bool_decide_eq_false_2 (t +:+ ".zip" = ".."))
    by (intros Hseg; rewrite Hseg in Hlen; cbn in Hlen; lia).
  rewrite join_snoc.
  assert (Hbody : ∃ w, match res with
                       | [] => t +:+ ".zip"
                       | _ :: _ => join "/" res +:+ "/" +:+ t +:+ ".zip"
                       end = w +:+ ".zip").
  { destruct res; [by exists t|].
    eexists. by rewrite <- !string_app_assoc. }
  destruct Hbody as [w ->].
  rewrite bool_decide_eq_false_2 by (by destruct w).
  exists (pre +:+ w). by rewrite string_app_nil_r, string_app_assoc.
Qed.

(** The output path [pack] builds has the format zip, whatever the
    temporary directory and the random name. *)
Lemma pack_output_format tmpdir random :
  last (split dot (path_join [tmpdir; random +:+ ".zip"])) = Some "zip".
Proof.
  assert (Hzip : ∃ y, path_join [tmpdir; random +:+ ".zip"] = y +:+ ".zip").
  { unfold path_join. rewrite !filter_cons, filter_nil.
    destruct (decide (random +:+ ".zip" ≠ "")) as [_|Hempty];
      [|by destruct Hempty, random].
    destruct (decide (tmpdir ≠ "")) as [_|_].
    - cbn [join]. rewrite <- !string_app_assoc. apply path_normalize_zip.
    - cbn [join]. apply path_normalize_zip. }
  destruct Hzip as [y ->].
  change (y +:+ ".zip") with (y +:+ "." +:+ "zip").
  by rewrite format_after_last_dot by (by intros [|[|[|[]]]]).
Qed.

Lemma appended_streams {A} (source name : A → string) (l : list A) :
  omap (λ e, match e with
             | IoAppend name date => Some (name, date)
             | _ => None
             end)
    (flat_map (λ x, [IoCreateReadStream (source x); IoAppend (name x) epoch]) l)
  = map (λ x, (name x, epoch)) l.
Proof. induction l as [|x l IH]; [done|]. cbn. by rewrite IH. Qed.

(** The run of [packDir] once the format check and the enumeration have
    passed. *)
Lemma packDir_entries_appended
    (archiver : string → list Entry → list Byte.byte)
    (fs : FileSystem) (inputDirPath outputFilePath fmt : string)
    (include exclude : option (list string)) (files : list (string * dirent)) :
  last (split dot outputFilePath) = Some fmt →
  isValidFormat (Some fmt) = true →
  fs_stat fs inputDirPath = Some (Directory files) →
  let run := packDir archiver fs inputDirPath outputFilePath include exclude in
  run.2 = Return outputFilePath
  ∧ appended run
    = map (λ file, (output file, epoch)) (packDir_files inputDirPath (Directory files))
      ++ map (λ shim, (path_basename shim, epoch)) (shims_of include)
  ∧ length (appended run)
    = (leaves (Directory files) + length (shims_of include))%nat
  ∧ artifact run
    = Some (archiver fmt
              (packDir_entries fs (packDir_files inputDirPath (Directory files))
                 include)).
Proof.
  intros Hfmt Hvalid Hstat run.
  assert (Happended : appended run
    = map (λ file, (output file, epoch)) (packDir_files inputDirPath (Directory files))
      ++ map (λ shim, (path_basename shim, epoch)) (shims_of include)).
  { subst run. unfold appended, packDir. rewrite Hfmt, Hvalid, Hstat.
    cbn [negb fst]. rewrite !omap_app.
    rewrite (appended_streams input output).
    cbn [omap list_omap app]. rewrite app_nil_r. f_equal.
    destruct include as [shims|]; [|done].
    apply (appended_streams (λ file, file) path_basename). }
  split_and!.
  - subst run. unfold packDir. by rewrite Hfmt, Hvalid, Hstat.
  - exact Happended.
  - rewrite Happended, length_app, !length_map. f_equal.
    unfold packDir_files. rewrite length_map.
    unfold sort. rewrite merge_sort_Permutation.
    by rewrite getAllFiles_length.
  - subst run. by rewrite (artifact_packDir _ _ _ _ _ _ fmt (Directory files)).
Qed.

(** A call of [packDir] that resolves has passed the format check and has
    enumerated a directory. *)
Lemma packDir_Return
    (archiver : string → list Entry → list Byte.byte)
    (fs : FileSystem) (inputDirPath outputFilePath : string)
    (include exclude : option (list string)) (path : string) :
  (packDir archiver fs inputDirPath outputFilePath include exclude).2 = Return path →
  ∃ fmt files,
    last (split dot outputFilePath) = Some fmt
    ∧ isValidFormat (Some fmt) = true
    ∧ fs_stat fs inputDirPath = Some (Directory files).
Proof.
  unfold packDir.
  destruct (last (split dot outputFilePath)) as [fmt|] eqn:Hfmt; [|done].
  destruct (isValidFormat (Some fmt)) eqn:Hvalid; [|done]. cbn [negb].
  destruct (fs_stat fs inputDirPath) as [[|files]|] eqn:Hstat; [done| |done].
  intros _. by exists fmt, files.
Qed.

(** X3: [pack] returns the resolved path of a code path that is an archive
    already, with no I/O at all.  For any other code path the output path
    it builds passes the format check of [packDir] as a zip, whatever the
    temporary directory and the random name; and whenever such a call
    resolves, it resolves to that path, the code path being a directory
    whose files, followed by the shims, make up the zip archive closed
    there. *)
Theorem pack_builds_zip
    (archiver : string → list Entry → list Byte.byte)
    (isArchivePath : string → bool) (path_resolve : string → string)
    (tmpdir random : string) (fs : FileSystem) (code : string)
    (shims : list string) (packDeps : bool) :
  let run := pack archiver isArchivePath path_resolve tmpdir random fs code
                  shims packDeps in
  let outputFilePath := path_join [tmpdir; random +:+ ".zip"] in
  if isArchivePath code then run = ([], Return (path_resolve code))
  else
    last (split dot outputFilePath) = Some "zip"
    ∧ isValidFormat (last (split dot outputFilePath)) = true
    ∧ ∀ path,
        run.2 = Return path →
        path = outputFilePath
        ∧ ∃ files,
            fs_stat fs code = Some (Directory files)
            ∧ artifact run
              = Some (archiver "zip"
                        (packDir_entries fs (packDir_files code (Directory files))
                           (Some shims))).
Proof.
  intros run outputFilePath. subst run. unfold pack.
  destruct (isArchivePath code); [done|].
  fold outputFilePath.
  pose proof (pack_output_format tmpdir random) as Hfmt. fold outputFilePath in Hfmt.
  split_and!; [done|by rewrite Hfmt|].
  intros path Hreturn.
  destruct (packDir_Return _ _ _ _ _ _ _ Hreturn) as (fmt & files & Hfmt' & Hvalid & Hstat).
  rewrite Hfmt in Hfmt'. injection Hfmt' as <-.
  destruct (packDir_entries_appended archiver fs code outputFilePath "zip"
              (Some shims) (Some (if negb packDeps then ["node_modules/**"] else []))
              files Hfmt Hvalid Hstat) as (Hresolved & _ & _ & Hartifact).
  rewrite Hresolved in Hreturn. injection Hreturn as <-.
  split; [done|]. by exists files.
Qed.

(** X4: whenever [packDir] resolves, it resolves to the output path, the
    format of that path was accepted and the input path held a directory.
    What the call appended is then the enumerated files in sorted order,
    one entry per file of the tree, and after them the shims in the order
    given, each under its base name, all dated at the epoch; no entry is
    dropped or refused when names coincide.  The archive closed at the
    output path is made of these entries. *)
Theorem packDir_appends_files_then_shims
    (archiver : string → list Entry → list Byte.byte)
    (fs : FileSystem) (inputDirPath outputFilePath : string)
    (include exclude : option (list string)) (path : string) :
  let run := packDir archiver fs inputDirPath outputFilePath include exclude in
  run.2 = Return path →
  path = outputFilePath
  ∧ ∃ fmt files,
      last (split dot outputFilePath) = Some fmt
      ∧ isValidFormat (Some fmt) = true
      ∧ fs_stat fs inputDirPath = Some (Directory files)
      ∧ appended run
        = map (λ file, (output file, epoch))
              (packDir_files inputDirPath (Directory files))
          ++ map (λ shim, (path_basename shim, epoch)) (shims_of include)
      ∧ length (appended run)
        = (leaves (Directory files) + length (shims_of include))%nat
      ∧ artifact run
        = Some (archiver fmt
                  (packDir_entries fs (packDir_files inputDirPath (Directory files))
                     include)).
Proof.
  intros run Hreturn. subst run.
  destruct (packDir_Return _ _ _ _ _ _ _ Hreturn) as (fmt & files & Hfmt & Hvalid & Hstat).
  destruct (packDir_entries_appended archiver fs inputDirPath outputFilePath fmt
              include exclude files Hfmt Hvalid Hstat)
    as (Hresolved & Happended & Hlength & Hartifact).
  rewrite Hresolved in Hreturn. injection Hreturn as <-.
  split; [done|]. by exists fmt, files.
Qed.

(** X5: [packDir] opens the output file only once the format check and the
    enumeration of the input directory have passed.  A call that opened an
    output stream opened it at the output path, on an accepted format and
    an enumerated directory; a call that opened none has thrown, appended
    nothing and closed no archive. *)
Theorem packDir_opens_output_after_checks
    (archiver : string → list Entry → list Byte.byte)
    (fs : FileSystem) (inputDirPath outputFilePath : string)
    (include exclude : option (list string)) :
  let run := packDir archiver fs inputDirPath outputFilePath include exclude in
  (∀ path,
     IoCreateWriteStream path ∈ run.1 →
     path = outputFilePath
     ∧ isValidFormat (last (split dot outputFilePath)) = true
     ∧ ∃ files, fs_stat fs inputDirPath = Some (Directory files))
  ∧ ((∀ path, IoCreateWriteStream path ∉ run.1) →
     (∃ e, run.2 = Throw e) ∧ appended run = [] ∧ artifact run = None).
Proof.
  intros run.
  destruct (last (split dot outputFilePath)) as [fmt|] eqn:Hfmt.
  2: { subst run. unfold packDir. rewrite Hfmt. cbn [fst snd]. split.
       - intros path Hopened. by apply elem_of_nil in Hopened.
       - intros _. split_and!; [by eexists|done..]. }
  destruct (isValidFormat (Some fmt)) eqn:Hvalid.
  2: { subst run. unfold packDir. rewrite Hfmt, Hvalid. cbn [negb fst snd]. split.
       - intros path Hopened. by apply elem_of_nil in Hopened.
       - intros _. split_and!; [by eexists|done..]. }
  destruct (fs_stat fs inputDirPath) as [[|files]|] eqn:Hstat.
  - subst run. unfold packDir. rewrite Hfmt, Hvalid, Hstat. cbn [negb fst snd]. split.
    + intros path. rewrite elem_of_cons, elem_of_nil. by intros [|[]].
    + intros _. split_and!; [by eexists|done..].
  - split.
    + subst run. unfold packDir. rewrite Hfmt, Hvalid, Hstat. cbn [negb fst snd].
      intros path Hopened. split_and!; [|done|by exists files].
      apply elem_of_app in Hopened as [Hopened|Hopened].
      * rewrite !elem_of_cons, elem_of_nil in Hopened.
        by destruct Hopened as [|[|[[= ->]|[]]]].
      * apply elem_of_app in Hopened as [Hopened|Hopened].
        { apply list_elem_of_In, in_flat_map in Hopened as (file & _ & Hopened).
          by destruct Hopened as [|[|[]]]. }
        apply elem_of_app in Hopened as [Hopened|Hopened].
        { destruct include as [shims|]; [|by apply elem_of_nil in Hopened].
          apply list_elem_of_In, in_flat_map in Hopened as (file & _ & Hopened).
          by destruct Hopened as [|[|[]]]. }
        rewrite !elem_of_cons, elem_of_nil in Hopened.
        by destruct Hopened as [|[|[]]].
    + intros Hnone. destruct (Hnone outputFilePath).
      subst run. unfold packDir. rewrite Hfmt, Hvalid, Hstat. cbn [negb fst snd].
      rewrite elem_of_app, !elem_of_cons. tauto.
  - subst run. unfold packDir. rewrite Hfmt, Hvalid, Hstat. cbn [negb fst snd]. split.
    + intros path. rewrite elem_of_cons, elem_of_nil. by intros [|[]].
    + intros _. split_and!; [by eexists|done..].
Qed.

Lemma replace_first_prefix pattern rest :
  replace_first pattern (pattern +:+ rest) = rest.
Proof.
  assert (Hprefix : String.prefix pattern (pattern +:+ rest) = true).
  { induction pattern as [|c pattern IH]; [by destruct rest|].
    rewrite string_app_cons. cbn. by destruct (ascii_dec c c). }
  assert (Hunfold : ∀ s, replace_first pattern s
            = if String.prefix pattern s
              then String.substring (String.length pattern)
                     (String.length s - String.length pattern) s
              else match s with
                   | EmptyString => EmptyString
                   | String c s' => String c (replace_first pattern s')
                   end) by (by intros []).
  rewrite Hunfold, Hprefix, string_app_length.
  replace (String.length pattern + String.length rest - String.length pattern)%nat
    with (String.length rest) by lia.
  clear. induction pattern as [|c pattern IH]; [|apply IH].
  change ("" +:+ rest) with rest. cbn [String.length].
  induction rest as [|c rest IH]; [done|]. cbn. by rewrite IH.
Qed.

(** X6: when every enumerated path starts with the input directory, the
    name of a file entry is what follows the input directory in the path of
    the file, so the input directory and the entry name make up that path
    again. *)
Theorem packDir_files_relative inputDirPath dir :
  Forall (λ path, ∃ rest, path = inputDirPath +:+ rest)
         (getAllFiles inputDirPath dir []) →
  Forall (λ file, input file = inputDirPath +:+ output file)
         (packDir_files inputDirPath dir).
Proof.
  intros Hpaths. unfold packDir_files. apply Forall_map. cbn.
  assert (Hsorted : Forall (λ path, ∃ rest, path = inputDirPath +:+ rest)
                           (sort (getAllFiles inputDirPath dir []))).
  { unfold sort. by rewrite merge_sort_Permutation. }
  eapply Forall_impl; [exact Hsorted|]. intros path [rest ->].
  by rewrite replace_first_prefix.
Qed.

Lemma getAllFiles_one_path_per_file_witness :
  well_formed Simulation.project = true
  ∧ NoDup (getAllFiles "/src" Simulation.project [])
  ∧ length (getAllFiles "/src" Simulation.project []) = 3%nat.
Proof.
  split; [reflexivity|].
  destruct (getAllFiles_one_path_per_file "/src") as (prefix & _ & Hlisted).
  pose proof (Hlisted [("index.js", File);
                       ("node_modules", Directory [("dep.js", File)]);
                       ("handler.js", File)] [] eq_refl) as Hproject.
  cbv zeta in Hproject. destruct Hproject as (Hfiles & Hdistinct & Hcount).
  unfold Simulation.project. rewrite Hfiles. cbn [app].
  split; [exact Hdistinct|]. rewrite Hcount. reflexivity.
Defined.

Lemma pack_builds_zip_witness :
  let run := pack Simulation.sim_archiver
               (λ p, isValidFormat (last (split dot p))) (λ p, p)
               "/tmp" "k3x9" (Simulation.file_system Simulation.project)
               "/src" ["/opt/shim.js"] true in
  run.2 = Return "/tmp/k3x9.zip"
  ∧ ∃ files, fs_stat (Simulation.file_system Simulation.project) "/src"
             = Some (Directory files).
Proof.
  intros run. subst run. split; [reflexivity|].
  pose proof (pack_builds_zip Simulation.sim_archiver
                (λ p, isValidFormat (last (split dot p))) (λ p, p)
                "/tmp" "k3x9" (Simulation.file_system Simulation.project)
                "/src" ["/opt/shim.js"] true) as Hpack.
  cbv zeta beta in Hpack.
  replace (isValidFormat (last (split dot "/src"))) with false in Hpack
    by reflexivity.
  destruct Hpack as (_ & _ & Hresolved).
  destruct (Hresolved "/tmp/k3x9.zip") as (_ & files & Hstat & _); [reflexivity|].
  by exists files.
Defined.

Lemma packDir_appends_files_then_shims_witness :
  let run := packDir Simulation.sim_archiver
               (Simulation.file_system Simulation.project)
               "/src" "/tmp/out.tar" (Some ["/opt/shim.js"; "/etc/index.js"]) None in
  run.2 = Return "/tmp/out.tar"
  ∧ length (appended run) = 5%nat.
Proof.
  intros run. subst run. split; [reflexivity|].
  destruct (packDir_appends_files_then_shims Simulation.sim_archiver
              (Simulation.file_system Simulation.project)
              "/src" "/tmp/out.tar" (Some ["/opt/shim.js"; "/etc/index.js"]) None
              "/tmp/out.tar")
    as (_ & fmt & files & _ & _ & Hstat & _ & Hlength & _); [reflexivity|].
  rewrite Hlength.
  assert (Hfiles : Simulation.project = Directory files).
  { injection Hstat as <-. reflexivity. }
  rewrite <- Hfiles. reflexivity.
Defined.

Lemma packDir_opens_output_after_checks_witness :
  IoCreateWriteStream "/tmp/out.zip"
    ∈ (packDir Simulation.sim_archiver (Simulation.file_system Simulation.project)
         "/src" "/tmp/out.zip" None None).1
  ∧ isValidFormat (last (split dot "/tmp/out.zip")) = true
  ∧ appended (packDir Simulation.sim_archiver
                (Simulation.file_system Simulation.project)
                "/missing" "/tmp/out.zip" None None) = [].
Proof.
  assert (Hopened : IoCreateWriteStream "/tmp/out.zip"
            ∈ (packDir Simulation.sim_archiver
                 (Simulation.file_system Simulation.project)
                 "/src" "/tmp/out.zip" None None).1).
  { let ios := eval vm_compute in
      (packDir Simulation.sim_archiver (Simulation.file_system Simulation.project)
         "/src" "/tmp/out.zip" None None).1 in
    change (IoCreateWriteStream "/tmp/out.zip" ∈ ios).
    rewrite !elem_of_cons. by right; right; left. }
  split; [exact Hopened|].
  destruct (packDir_opens_output_after_checks Simulation.sim_archiver
              (Simulation.file_system Simulation.project)
              "/src" "/tmp/out.zip" None None) as [Hchecked _].
  destruct (Hchecked "/tmp/out.zip" Hopened) as (_ & Hvalid & _).
  split; [exact Hvalid|].
  destruct (packDir_opens_output_after_checks Simulation.sim_archiver
              (Simulation.file_system Simulation.project)
              "/missing" "/tmp/out.zip" None None) as [_ Hnone].
  destruct Hnone as (_ & Happended & _); [|exact Happended].
  intros path.
  let ios := eval vm_compute in
    (packDir Simulation.sim_archiver (Simulation.file_system Simulation.project)
       "/missing" "/tmp/out.zip" None None).1 in
  change (IoCreateWriteStream path ∉ ios).
  rewrite elem_of_cons, elem_of_nil. by intros [|[]].
Defined.

Lemma packDir_files_relative_witness :
  Forall (λ file, input file = "/src" +:+ output file)
         (packDir_files "/src" Simulation.project).
Proof.
  apply packDir_files_relative. vm_compute.
  repeat (constructor; [by eexists|]). constructor.
Defined.

End ArchiveMore.

(** ** The component *)
Section ComponentMore.
Import Js AwsLambda Support.
Context {W : Type} (P : Platform W).

Lemma steady_ret {A} φ (a : A) : steady φ (mret a : M W A).
Proof. intros this. split; [done|]. exists []. by rewrite app_nil_r. Qed.

Lemma steady_throw {A} φ e : steady φ (throw e : M W A).
Proof. intros this. split; [done|]. exists []. by rewrite app_nil_r. Qed.

Lemma steady_out_of_fuel {A} φ : steady φ (out_of_fuel : M W A).
Proof. intros this. split; [done|]. exists []. by rewrite app_nil_r. Qed.

Lemma steady_read {A} φ (g : Instance W → A) :
  steady φ (λ this, (Return (g this), this)).
Proof. intros this. split; [done|]. exists []. by rewrite app_nil_r. Qed.

Lemma steady_bind {A B} φ (m : M W A) (f : A → M W B) :
  steady φ m → (∀ a, steady φ (f a)) → steady φ (m ≫= f).
Proof.
  intros Hm Hf this. rewrite bind_run.
  destruct (Hm this) as (Hstate & events & Hlog & Hall).
  destruct (m this) as [[a|e|] this1]; cbn in *.
  - destruct (Hf a this1) as (Hstate' & events' & Hlog' & Hall').
    split; [congruence|]. exists (events ++ events').
    rewrite Hlog', Hlog, app_assoc. split; [done|]. by apply Forall_app.
  - split; [done|]. by exists events.
  - split; [done|]. by exists events.
Qed.

Lemma steady_try_catch {A} φ (m : M W A) (h : exn → M W A) :
  steady φ m → (∀ e, steady φ (h e)) → steady φ (try_catch m h).
Proof.
  intros Hm Hh this. unfold try_catch.
  destruct (Hm this) as (Hstate & events & Hlog & Hall).
  destruct (m this) as [[a|e|] this1]; cbn in *.
  - split; [done|]. by exists events.
  - destruct (Hh e this1) as (Hstate' & events' & Hlog' & Hall').
    split; [congruence|]. exists (events ++ events').
    rewrite Hlog', Hlog, app_assoc. split; [done|]. by apply Forall_app.
  - split; [done|]. by exists events.
Qed.

Lemma steady_emit (φ : event → Prop) ev : φ ev → steady φ (emit ev : M W unit).
Proof.
  intros Hev this. split; [done|]. exists [ev]. split; [done|]. by constructor.
Qed.

Lemma steady_perform {A} φ (op : W → (exn + A) * W) : steady φ (perform op).
Proof.
  intros this. unfold perform. destruct (op (world this)) as [answer w].
  split; [done|]. exists []. by rewrite app_nil_r.
Qed.

Lemma steady_pack (φ : event → Prop) code shims packDeps :
  (∀ io, φ (Pack io)) → steady φ (pack P code shims packDeps).
Proof.
  intros Hpack this. unfold pack.
  destruct (if isArchivePath P code then _ else _) as [rnd w]. cbn.
  split; [done|]. eexists. split; [done|].
  apply Forall_map, Forall_true. intros io. apply Hpack.
Qed.

Lemma steady_call {A} (φ : event → Prop) lambda r (op : W → (exn + A) * W) :
  φ (Call lambda r) → steady φ (call lambda r op).
Proof.
  intros Hcall. unfold call. apply steady_bind; [by apply steady_emit|].
  intros _. apply steady_perform.
Qed.

Lemma steady_waitUntilReady_loop (φ : event → Prop) fuel lambda startTime
    fnName pollInterval :
  φ (Call lambda (Aws.CallGetFunction fnName)) → φ (SetTimeout pollInterval) →
  steady φ (waitUntilReady_loop P fuel lambda startTime fnName pollInterval).
Proof.
  intros Hcall Hpause. induction fuel as [|fuel IH]; [apply steady_out_of_fuel|].
  cbn [waitUntilReady_loop].
  apply steady_bind; [apply steady_read|]. intros time.
  case_bool_decide; [|apply steady_ret].
  apply steady_bind; [by apply steady_call|].
  intros res. destruct (ready res); [apply steady_ret|].
  apply steady_bind; [by apply steady_emit|]. intros _.
  apply steady_bind; [apply steady_perform|]. intros _. apply IH.
Qed.

Lemma steady_waitUntilReady (φ : event → Prop) fuel lambda fnName pollInterval :
  (∀ message, φ (Debug message)) →
  φ (Call lambda (Aws.CallGetFunction fnName)) → (∀ ms, φ (SetTimeout ms)) →
  steady φ (waitUntilReady P fuel lambda fnName pollInterval).
Proof.
  intros Hdebug Hcall Hpause. unfold waitUntilReady.
  apply steady_bind; [apply steady_read|]. intros startTime.
  apply steady_bind; [by apply steady_emit|]. intros _.
  by apply steady_waitUntilReady_loop.
Qed.

Lemma steady_code_source (φ : event → Prop) zipPath bucket :
  φ (ReadFile zipPath) → steady φ (code_source P zipPath bucket).
Proof.
  intros Hread. unfold code_source. destruct (truthy bucket); [apply steady_ret|].
  apply steady_bind; [by apply steady_emit|]. intros _.
  apply steady_bind; [apply steady_perform|]. intros content. apply steady_ret.
Qed.

Lemma returns_ret {A} (post : A → Prop) (a : A) :
  post a → returns post (mret a : M W A).
Proof. intros Ha this a' [= <-]. done. Qed.

Lemma returns_throw {A} (post : A → Prop) e : returns post (throw e : M W A).
Proof. by intros this a. Qed.

Lemma returns_bind {A B} (post : B → Prop) (m : M W A) (f : A → M W B) :
  (∀ a, returns post (f a)) → returns post (m ≫= f).
Proof.
  intros Hf this b. rewrite bind_run.
  destruct (m this) as [[a|e|] this1] eqn:Hm; [|done..]. apply Hf.
Qed.

Ltac steady_step :=
  first
    [ by apply steady_waitUntilReady
    | by apply steady_code_source
    | by apply steady_pack
    | by apply steady_call
    | by apply steady_emit
    | apply steady_ret
    | apply steady_throw
    | apply steady_perform
    | apply steady_read
    | apply steady_try_catch; [|intros ?]
    | apply steady_bind; [|intros ?]
    | case_match ].

Ltac returns_step :=
  first
    [ apply returns_bind; intros ?
    | apply returns_throw
    | apply returns_ret
    | case_match ].

(** Lines 55-94 of [default] do nothing remote. *)
Lemma steady_default_prepare settings : steady local (default_prepare P settings).
Proof.
  unfold default_prepare, status, debug, load_role, get_state.
  repeat steady_step.
Qed.

Lemma bind_assoc_run {A B C} (m : M W A) (f : A → M W B) (g : B → M W C) this :
  (m ≫= (λ a, f a ≫= g)) this = ((m ≫= f) ≫= g) this.
Proof. unfold mbind, M_bind. by destruct (m this) as [[a|e|] this1]. Qed.

(** [default] from line 96 on is a step that only reads, creates, updates
    and waits, and gives the configuration to report, followed by lines
    125-138. *)
Lemma default_reconcile_split fuel lambda config :
  ∃ m : M W Config.t,
    (∀ this, default_reconcile P fuel lambda config this
             = (m ≫= default_conclude P lambda) this)
    ∧ steady reconciling m
    ∧ returns (same_deployment config) m.
Proof.
  eexists. split_and!.
  - intros this. unfold default_reconcile, default_conclude.
    apply bind_assoc_run.
  - unfold getLambda, createLambda, updateLambdaCode, default_update_config,
      updateLambdaConfig, debug.
    repeat steady_step.
  - unfold default_update_config.
    repeat returns_step; by repeat split.
Qed.

(** From line 96 on: what a run adds to the log before the closing message
    are reads, create and update calls and waits; a run that returns has
    set the state to the outputs and saved them, any other run has left
    the state alone. *)
Lemma default_reconcile_trace fuel lambda config this :
  baseline_name_unchanged this config →
  ∃ events,
    Forall reconciling events
    ∧ match (default_reconcile P fuel lambda config this).1 with
      | Return outputs =>
          ∃ c w,
            same_deployment config c ∧ outputs = outputs_of c
            ∧ (default_reconcile P fuel lambda config this).2
              = {| world := save P (Some outputs) w; state := Some outputs;
                   log := log this ++ events
                          ++ [Debug (deployed_message c); Save (Some outputs)] |}
      | _ =>
          state (default_reconcile P fuel lambda config this).2 = state this
          ∧ log (default_reconcile P fuel lambda config this).2
            = log this ++ events
      end.
Proof.
  intros Hname.
  destruct (default_reconcile_split fuel lambda config)
    as (m & Hsplit & Hsteady & Hreturns).
  rewrite !Hsplit, !bind_run.
  destruct (Hsteady this) as (Hstate & events & Hlog & Hall).
  specialize (Hreturns this). exists events. split; [done|].
  destruct (m this) as [[c|e|] [w1 state1 log1]]; cbn in *; [|done..].
  destruct (Hreturns c eq_refl) as (Hsettings & Hcname & _).
  subst state1 log1.
  assert (Hskip : ∀ this' : Instance W,
    match truthy (Outputs.name <$> state this) with
    | Some stateName =>
        if bool_decide (stateName ≠ Config.name c)
        then status "Replacing";; deleteLambda P lambda stateName
        else mret ()
    | None => mret ()
    end this' = (Return tt, this')).
  { intros this'. rewrite Hcname. destruct Hname as [->| ->]; [done|].
    by rewrite bool_decide_eq_false_2 by (by intros []). }
  unfold default_conclude, get_state. rewrite bind_run. cbn [state].
  rewrite bind_run, Hskip.
  unfold debug, emit, set_state, perform.
  repeat (progress (unfold mbind, M_bind, mret, M_ret; cbn)).
  exists c, w1. split_and!; [by apply Hreturns|done|].
  by rewrite <- !app_assoc.
Qed.

(** A whole run of [default]: local steps, then reads, create and update
    calls and waits, then the closing message and the save. *)
Lemma default_trace fuel settings this :
  ∃ events1 events2,
    Forall local events1 ∧ Forall reconciling events2
    ∧ match (default P fuel settings this).1 with
      | Return outputs =>
          ∃ lambda config this1 c w,
            default_prepare P settings this = (Return (lambda, config), this1)
            ∧ same_deployment config c ∧ outputs = outputs_of c
            ∧ (default P fuel settings this).2
              = {| world := save P (Some outputs) w; state := Some outputs;
                   log := log this ++ events1 ++ events2
                          ++ [Debug (deployed_message c); Save (Some outputs)] |}
      | _ =>
          state (default P fuel settings this).2 = state this
          ∧ log (default P fuel settings this).2 = log this ++ events1 ++ events2
      end.
Proof.
  destruct (steady_default_prepare settings this) as (Hstate & events1 & Hlog & Hall).
  exists events1.
  destruct (default_prepare P settings this) as [[[lambda config]|e|] this1] eqn:Hprepare.
  - rewrite (default_run _ _ _ _ _ _ _ Hprepare).
    apply default_prepare_spec in Hprepare as Hspec.
    destruct Hspec as (_ & _ & Hname & _).
    destruct (default_reconcile_trace fuel lambda config this1 Hname)
      as (events2 & Hall2 & Hrun).
    exists events2. split_and!; [done..|]. cbn in Hstate, Hlog.
    destruct (default_reconcile P fuel lambda config this1) as [[outputs|e|] final];
      cbn in *.
    + destruct Hrun as (c & w & Hsame & -> & ->).
      exists lambda, config, this1, c, w. split_and!; [done..|].
      by rewrite Hlog, <- !app_assoc.
    + destruct Hrun as [-> ->]. by rewrite Hlog, <- !app_assoc.
    + destruct Hrun as [-> ->]. by rewrite Hlog, <- !app_assoc.
  - exists []. unfold default. rewrite bind_run, Hprepare. cbn in *.
    split_and!; [done..|]. by rewrite app_nil_r.
  - exists []. unfold default. rewrite bind_run, Hprepare. cbn in *.
    split_and!; [done..|]. by rewrite app_nil_r.
Qed.

(** The name lines 55-58 choose: the one in the state, else the one in the
    inputs, else a generated one. *)
Lemma default_prepare_name settings this lambda config this1 :
  default_prepare P settings this = (Return (lambda, config), this1) →
  Config.name config
  = match truthy (Outputs.name <$> state this) with
    | Some name => name
    | None =>
        match truthy (Settings.name settings) with
        | Some name => name
        | None => (resourceId P (world this)).1
        end
    end.
Proof.
  intros Hrun. unfold default_prepare in Hrun.
  apply bind_Return in Hrun as ([] & this2 & Hstatus & Hrun).
  apply bind_Return in Hrun as (this_state & this3 & Hget & Hrun).
  apply bind_Return in Hrun as (name & this4 & Hname & Hrun).
  repeat (apply bind_Return in Hrun as (? & ? & _ & Hrun)).
  injection Hrun as <- <- <-. cbn.
  injection Hstatus as <-. injection Hget as <- <-. cbn in Hname.
  destruct (truthy (Outputs.name <$> state this)) as [stateName|];
    [by injection Hname as <- _|].
  destruct (truthy (Settings.name settings)) as [inputName|];
    [by injection Hname as <- _|].
  unfold perform in Hname. cbn in Hname.
  destruct (resourceId P (world this)) as [id w]. by injection Hname as <- _.
Qed.

(** X7: when the role component, the packaging or the hashing of lines
    55-94 fails, [default] fails with that error, before any call on the
    Lambda API and without touching or saving the state. *)
Theorem preparation_failure_is_local fuel settings this e this1 :
  default_prepare P settings this = (Throw e, this1) →
  default P fuel settings this = (Throw e, this1)
  ∧ state this1 = state this
  ∧ ∃ events,
      log this1 = log this ++ events
      ∧ Forall (λ ev, (∀ lambda r, ev ≠ Call lambda r) ∧ ∀ s, ev ≠ Save s) events.
Proof.
  intros Hprepare.
  destruct (steady_default_prepare settings this) as (Hstate & events & Hlog & Hall).
  rewrite Hprepare in Hstate, Hlog. cbn in Hstate, Hlog.
  split_and!; [|done|].
  - unfold default. by rewrite bind_run, Hprepare.
  - exists events. split; [done|].
    eapply Forall_impl; [exact Hall|]. by intros [].
Qed.

(** X8: [default] never deletes a function and never reports a
    replacement: the name it deploys under is the one in the state
    whenever there is one, so the test of line 126 never holds. *)
Theorem default_never_deletes fuel settings this :
  ∃ events,
    log (default P fuel settings this).2 = log this ++ events
    ∧ Forall (λ ev, ev ≠ Status "Replacing"
                    ∧ ∀ lambda name, ev ≠ Call lambda (Aws.CallDeleteFunction name))
             events.
Proof.
  destruct (default_trace fuel settings this)
    as (events1 & events2 & Hall1 & Hall2 & Hrun).
  assert (Hlocal : Forall (λ ev, ev ≠ Status "Replacing"
                    ∧ ∀ lambda name, ev ≠ Call lambda (Aws.CallDeleteFunction name))
                    events1).
  { eapply Forall_impl; [exact Hall1|]. intros [] Hev; split; try done.
    by intros [= ->]. }
  assert (Hremote : Forall (λ ev, ev ≠ Status "Replacing"
                    ∧ ∀ lambda name, ev ≠ Call lambda (Aws.CallDeleteFunction name))
                    events2).
  { eapply Forall_impl; [exact Hall2|]. intros [] Hev; split; try done.
    intros lambda' name [= -> ->]. done. }
  destruct (default P fuel settings this) as [[outputs|e|] final]; cbn in *.
  - destruct Hrun as (lambda & config & this1 & c & w & _ & _ & _ & ->). cbn.
    eexists. split; [done|]. rewrite !Forall_app. split_and!; [done..|].
    by repeat constructor.
  - destruct Hrun as [_ ->]. eexists. split; [done|]. by rewrite Forall_app.
  - destruct Hrun as [_ ->]. eexists. split; [done|]. by rewrite Forall_app.
Qed.

(** X9: [default] assigns [this.state] at its end only, with the outputs,
    and calls [this.save()] straight after.  A run that returns has the
    outputs it returns as [this.state], and the save of them, the only
    one, is its last step; a run that ends otherwise without having called
    [this.save()] has left [this.state] as it was. *)
Theorem default_saves_what_it_returns fuel settings this :
  let run := default P fuel settings this in
  ∃ events,
    log run.2 = log this ++ events
    ∧ match run.1 with
      | Return outputs =>
          state run.2 = Some outputs
          ∧ (∃ before, events = before ++ [Save (Some outputs)]
                       ∧ Forall (λ ev, ∀ s, ev ≠ Save s) before)
          ∧ ∃ w, world run.2 = save P (Some outputs) w
      | _ =>
          Forall (λ ev, ∀ s, ev ≠ Save s) events → state run.2 = state this
      end.
Proof.
  intros run. subst run.
  destruct (default_trace fuel settings this)
    as (events1 & events2 & Hall1 & Hall2 & Hrun).
  assert (Hlocal : Forall (λ ev, ∀ s, ev ≠ Save s) events1).
  { eapply Forall_impl; [exact Hall1|]. by intros []. }
  assert (Hremote : Forall (λ ev, ∀ s, ev ≠ Save s) events2).
  { eapply Forall_impl; [exact Hall2|]. by intros []. }
  destruct (default P fuel settings this) as [[outputs|e|] final]; cbn in *.
  - destruct Hrun as (lambda & config & this1 & c & w & _ & _ & _ & ->). cbn.
    exists (events1 ++ events2 ++ [Debug (deployed_message c); Save (Some outputs)]).
    split_and!; [done|done| |by exists w].
    exists (events1 ++ events2 ++ [Debug (deployed_message c)]). split.
    + by rewrite <- !app_assoc.
    + rewrite !Forall_app. split_and!; [done..|]. by repeat constructor.
  - destruct Hrun as [Hstate Hlog]. by exists (events1 ++ events2).
  - destruct Hrun as [Hstate Hlog]. by exists (events1 ++ events2).
Qed.


(** X10: the outputs [default] returns carry the name already in the
    state, whatever name the inputs ask for; only without one do they
    carry the name of the inputs, and only without that one a generated
    name.  They carry an ARN, and the merged inputs of this run for every
    other key but the hash and the role. *)
Theorem default_outputs fuel settings this outputs :
  (default P fuel settings this).1 = Return outputs →
  Outputs.name outputs
  = match truthy (Outputs.name <$> state this) with
    | Some name => name
    | None =>
        match truthy (Settings.name settings) with
        | Some name => name
        | None => (resourceId P (world this)).1
        end
    end
  ∧ is_Some (Outputs.arn outputs)
  ∧ Outputs.description outputs = Settings.description settings
  ∧ Outputs.memory outputs = Settings.memory settings
  ∧ Outputs.timeout outputs = Settings.timeout settings
  ∧ Outputs.code outputs = Settings.code settings
  ∧ Outputs.bucket outputs = Settings.bucket settings
  ∧ Outputs.shims outputs = Settings.shims settings
  ∧ Outputs.handler outputs = Settings.handler settings
  ∧ Outputs.runtime outputs = Settings.runtime settings
  ∧ Outputs.architectures outputs = Settings.architectures settings
  ∧ Outputs.env outputs = Settings.env settings
  ∧ Outputs.layer outputs = Settings.layer settings
  ∧ Outputs.region outputs = Settings.region settings.
Proof.
  intros Hreturn.
  destruct (default_trace fuel settings this) as (events1 & events2 & _ & _ & Hrun).
  rewrite Hreturn in Hrun.
  destruct Hrun as (lambda & config & this1 & c & w & Hprepare & Hsame & -> & _).
  destruct Hsame as (Hsettings & Hname & _ & _ & Harn).
  apply default_prepare_name in Hprepare as Hchosen.
  apply default_prepare_spec in Hprepare as (_ & _ & _ & Hmerged & _).
  unfold outputs_of. cbn. rewrite Hname, Hchosen.
  unfold Config.settings in *. rewrite Hsettings, Hmerged.
  by split_and!.
Qed.

Lemma waitUntilReady_loop_rejected fuel lambda startTime fnName pollInterval this e w :
  now P (world this) - startTime < waitDurationMillis →
  lambda_getFunction P lambda fnName (world this) = (inl e, w) →
  waitUntilReady_loop P (S fuel) lambda startTime fnName pollInterval this
  = (Throw e, called lambda (Aws.CallGetFunction fnName) w this).
Proof.
  intros Htime Hanswer. cbn [waitUntilReady_loop].
  rewrite bind_run. cbn beta iota.
  rewrite bool_decide_eq_true_2 by done.
  by rewrite bind_run, call_run, Hanswer.
Qed.

Lemma waitUntilReady_loop_sound fuel lambda startTime fnName pollInterval :
  ∀ this,
    match waitUntilReady_loop P fuel lambda startTime fnName pollInterval this with
    | (Return true, this') =>
        ∃ (polls : nat) this1 res w,
          lambda_getFunction P lambda fnName (world this1) = (inr res, w)
          ∧ ready res = true
          ∧ this' = called lambda (Aws.CallGetFunction fnName) w this1
          ∧ state this1 = state this
          ∧ log this1
            = log this ++ concat (replicate polls (poll_events lambda fnName pollInterval))
    | (Throw e, this') =>
        ∃ (polls : nat) this1 w,
          lambda_getFunction P lambda fnName (world this1) = (inl e, w)
          ∧ this' = called lambda (Aws.CallGetFunction fnName) w this1
          ∧ state this1 = state this
          ∧ log this1
            = log this ++ concat (replicate polls (poll_events lambda fnName pollInterval))
    | _ => True
    end.
Proof.
  induction fuel as [|fuel IH]; intros this; [done|].
  destruct (decide (now P (world this) - startTime < waitDurationMillis))
    as [Htime|Htime].
  2: { by rewrite waitUntilReady_loop_expired by lia. }
  destruct (lambda_getFunction P lambda fnName (world this)) as [[e|res] w] eqn:Hanswer.
  { rewrite (waitUntilReady_loop_rejected _ _ _ _ _ _ _ _ Htime Hanswer).
    exists 0%nat, this, w. by rewrite app_nil_r. }
  destruct (ready res) eqn:Hready.
  { rewrite (waitUntilReady_loop_ready _ _ _ _ _ _ _ _ _ Htime Hanswer Hready).
    exists 0%nat, this, res, w. by rewrite app_nil_r. }
  rewrite (waitUntilReady_loop_retry _ _ _ _ _ _ _ _ _ Htime Hanswer Hready).
  specialize (IH {| world := setTimeout P pollInterval w; state := state this;
                    log := log this ++ poll_events lambda fnName pollInterval |}).
  destruct (waitUntilReady_loop P fuel lambda startTime fnName pollInterval _)
    as [[[|]|e|] this']; [|done| |done].
  - destruct IH as (polls & this1 & res1 & w1 & Hpoll & Hready1 & -> & Hstate & Hlog).
    exists (S polls), this1, res1, w1. split_and!; [done..|].
    rewrite Hlog. cbn [log replicate concat]. by rewrite <- app_assoc.
  - destruct IH as (polls & this1 & w1 & Hpoll & -> & Hstate & Hlog).
    exists (S polls), this1, w1. split_and!; [done..|].
    rewrite Hlog. cbn [log replicate concat]. by rewrite <- app_assoc.
Qed.

(** X11: [waitUntilReady] answers [true] only straight after a poll that
    showed the function active with its last update successful, and it
    throws only what the backend rejected a poll with, straight after that
    poll: a rejected poll is not tried again.  Before that poll the run
    made only polls followed by a pause. *)
Theorem waitUntilReady_sound fuel lambda fnName pollInterval this :
  let interval := match pollInterval with Some ms => ms | None => 5000 end in
  let waiting :=
    Debug ("Waiting up to 600 seconds for Lambda " +:+ fnName +:+ " to be ready.") in
  match waitUntilReady P fuel lambda fnName pollInterval this with
  | (Return true, this') =>
      ∃ (polls : nat) this1 res w,
        lambda_getFunction P lambda fnName (world this1) = (inr res, w)
        ∧ ready res = true
        ∧ this' = called lambda (Aws.CallGetFunction fnName) w this1
        ∧ state this1 = state this
        ∧ log this1
          = log this
            ++ waiting :: concat (replicate polls (poll_events lambda fnName interval))
  | (Throw e, this') =>
      ∃ (polls : nat) this1 w,
        lambda_getFunction P lambda fnName (world this1) = (inl e, w)
        ∧ this' = called lambda (Aws.CallGetFunction fnName) w this1
        ∧ state this1 = state this
        ∧ log this1
          = log this
            ++ waiting :: concat (replicate polls (poll_events lambda fnName interval))
  | _ => True
  end.
Proof.
  intros interval waiting. unfold waitUntilReady, debug, emit.
  rewrite !bind_run. cbn beta iota. fold interval.
  match goal with
  | |- context [waitUntilReady_loop P fuel lambda ?startTime fnName interval ?this1] =>
      pose proof (waitUntilReady_loop_sound fuel lambda startTime fnName interval this1)
        as Hloop;
      destruct (waitUntilReady_loop P fuel lambda startTime fnName interval this1)
        as [[[|]|e|] this']
  end; [|done| |done].
  - destruct Hloop as (polls & this1 & res & w & Hpoll & Hready & -> & Hstate & Hlog).
    exists polls, this1, res, w. split_and!; [done..|].
    rewrite Hlog. cbn [log]. by rewrite <- app_assoc.
  - destruct Hloop as (polls & this1 & w & Hpoll & -> & Hstate & Hlog).
    exists polls, this1, w. split_and!; [done..|].
    rewrite Hlog. cbn [log]. by rewrite <- app_assoc.
Qed.

Lemma waitUntilReady_rejected fuel lambda fnName pollInterval this e w :
  lambda_getFunction P lambda fnName (world this) = (inl e, w) →
  waitUntilReady P (S fuel) lambda fnName pollInterval this
  = (Throw e,
     {| world := w; state := state this;
        log := log this
               ++ [Debug ("Waiting up to 600 seconds for Lambda " +:+ fnName
                          +:+ " to be ready.");
                   Call lambda (Aws.CallGetFunction fnName)] |}).
Proof.
  intros Hanswer. unfold waitUntilReady, debug, emit.
  rewrite !bind_run. cbn beta iota.
  erewrite waitUntilReady_loop_rejected; [|cbn; unfold waitDurationMillis; lia|done].
  unfold called. cbn. by rewrite <- app_assoc.
Qed.

(** X12: a first deployment.  The function is absent, the create call goes
    through and the wait returns: [default] returns and saves outputs that
    carry the ARN and the code hash the backend answered, after one create
    call as only change, whatever the wait answered.  A function that is
    not ready when the wait gives up is recorded as deployed like a ready
    one. *)
Theorem first_deployment_ignores_readiness fuel settings this0 lambda config this
    e w1 Code this2 res w3 settled this4 :
  default_prepare P settings this0 = (Return (lambda, config), this) →
  lambda_getFunctionConfiguration P lambda (Config.name config) (world this)
    = (inl e, w1) →
  exn_code e = Some "ResourceNotFoundException" →
  code_source P (Config.zipPath config) (Settings.bucket config)
    {| world := w1; state := state this;
       log := log this
              ++ [Call lambda (Aws.CallGetFunctionConfiguration (Config.name config));
                  Debug (creating_message config)] |}
    = (Return Code, this2) →
  lambda_createFunction P lambda (createLambda_params config Code) (world this2)
    = (inr res, w3) →
  waitUntilReady P fuel lambda (Config.name config) None
    (called lambda (Aws.CallCreateFunction (createLambda_params config Code)) w3 this2)
    = (Return settled, this4) →
  ∃ outputs final,
    default P fuel settings this0 = (Return outputs, final)
    ∧ Outputs.arn outputs = Some (Aws.FunctionArn res)
    ∧ Outputs.hash outputs = Aws.CodeSha256 res
    ∧ state final = Some outputs
    ∧ world final = save P (Some outputs) (world this4)
    ∧ mutations (log final)
      = mutations (log this0)
        ++ [Aws.CallCreateFunction (createLambda_params config Code)].
Proof.
  intros Hprepare Hanswer Hcode Hsource Hcreate Hwait.
  rewrite (default_run _ _ _ _ _ _ _ Hprepare).
  apply default_prepare_spec in Hprepare as (_ & Hlog & Hname & _).
  destruct (default_reconcile_absent P fuel lambda config this e w1 Code this2 res
              w3 settled this4 Hanswer Hcode Hsource Hcreate Hwait Hname)
    as [Hrun Hmutations].
  eexists _, _. split; [exact Hrun|]. cbn [state world log].
  split_and!; [done..|]. by rewrite Hmutations, Hlog.
Qed.

(** X13: a first deployment in which the create call goes through and the
    first readiness poll is rejected.  [default] throws what the poll was
    rejected with; the function is created, yet [this.state] is as before
    and nothing is saved, so the component has no record of the function
    it created. *)
Theorem rejected_poll_leaves_creation_unrecorded fuel settings this0 lambda config
    this e w1 Code this2 res w3 e' w4 :
  default_prepare P settings this0 = (Return (lambda, config), this) →
  lambda_getFunctionConfiguration P lambda (Config.name config) (world this)
    = (inl e, w1) →
  exn_code e = Some "ResourceNotFoundException" →
  code_source P (Config.zipPath config) (Settings.bucket config)
    {| world := w1; state := state this;
       log := log this
              ++ [Call lambda (Aws.CallGetFunctionConfiguration (Config.name config));
                  Debug (creating_message config)] |}
    = (Return Code, this2) →
  lambda_createFunction P lambda (createLambda_params config Code) (world this2)
    = (inr res, w3) →
  lambda_getFunction P lambda (Config.name config) w3 = (inl e', w4) →
  ∃ final,
    default P (S fuel) settings this0 = (Throw e', final)
    ∧ world final = w4
    ∧ state final = state this0
    ∧ log final
      = log this2
        ++ [Call lambda (Aws.CallCreateFunction (createLambda_params config Code));
            Debug ("Waiting up to 600 seconds for Lambda "
                   +:+ Config.name config +:+ " to be ready.");
            Call lambda (Aws.CallGetFunction (Config.name config))]
    ∧ mutations (log final)
      = mutations (log this0)
        ++ [Aws.CallCreateFunction (createLambda_params config Code)].
Proof.
  intros Hprepare Hanswer Hcode Hsource Hcreate Hpoll.
  cut (default P (S fuel) settings this0
       = (Throw e',
          {| world := w4; state := state this0;
             log := log this2
                    ++ [Call lambda (Aws.CallCreateFunction
                                       (createLambda_params config Code));
                        Debug ("Waiting up to 600 seconds for Lambda "
                               +:+ Config.name config +:+ " to be ready.");
                        Call lambda (Aws.CallGetFunction (Config.name config))] |})
       ∧ mutations (log this2) = mutations (log this0)).
  { intros [Hrun Hmutations]. eexists. split; [exact Hrun|]. cbn [world state log].
    split_and!; [done..|]. rewrite mutations_app, Hmutations. done. }
  rewrite (default_run _ _ _ _ _ _ _ Hprepare).
  apply default_prepare_spec in Hprepare as (Hstate & Hlog & _).
  destruct (quiet_code_source P (Config.zipPath config) (Settings.bucket config)
              {| world := w1; state := state this;
                 log := log this
                        ++ [Call lambda (Aws.CallGetFunctionConfiguration
                                           (Config.name config));
                            Debug (creating_message config)] |})
    as [Hstate2 Hlog2].
  rewrite Hsource in Hstate2, Hlog2. cbn in Hstate2, Hlog2.
  split.
  - unfold default_reconcile.
    rewrite bind_run, (getLambda_not_found _ _ _ _ _ _ Hanswer Hcode).
    rewrite bind_run. cbn beta iota.
    rewrite bind_run. unfold debug at 1, emit at 1. cbn beta iota.
    rewrite bind_run. unfold createLambda.
    rewrite bind_run. unfold called in *. cbn [world state log].
    rewrite <- app_assoc. cbn [app].
    rewrite Hsource. rewrite bind_run, call_run, Hcreate. unfold called. cbn [fst snd].
    cbn beta iota. unfold mret at 1, M_ret at 1.
    cbn [fst snd set_arn set_hash Config.name].
    rewrite bind_run.
    erewrite waitUntilReady_rejected; [|exact Hpoll].
    cbn [state log]. rewrite Hstate2, Hstate.
    by rewrite <- app_assoc.
  - rewrite Hlog2, mutations_app. cbn. by rewrite app_nil_r, Hlog.
Qed.

(** X14: [createLambda] takes the code from the bucket whenever one is
    given: the call carries the bucket with the base name of the archive
    as key, and the archive is not read.  Without a bucket, or with the
    empty string as bucket, it reads the archive and sends its content; if
    the read fails it throws that error and no call is made. *)
Theorem createLambda_code lambda config this :
  let zipPath := Config.zipPath config in
  let run := createLambda P lambda config this in
  match truthy (Settings.bucket config) with
  | Some bucket =>
      log run.2
      = log this
        ++ [Call lambda (Aws.CallCreateFunction
                           (createLambda_params config
                              (Aws.S3 bucket (path_basename zipPath))))]
  | None =>
      match readFile P zipPath (world this) with
      | inr content =>
          log run.2
          = log this
            ++ [ReadFile zipPath;
                Call lambda (Aws.CallCreateFunction
                               (createLambda_params config (Aws.ZipFile content)))]
      | inl e =>
          run = (Throw e, {| world := world this; state := state this;
                             log := log this ++ [ReadFile zipPath] |})
      end
  end.
Proof.
  intros zipPath run. subst run zipPath.
  unfold createLambda, code_source, call, perform, emit.
  destruct (truthy (Settings.bucket config)) as [bucket|].
  - repeat (progress (unfold mbind, M_bind, mret, M_ret; cbn)).
    by destruct (lambda_createFunction P lambda _ (world this)) as [[e|res] w].
  - repeat (progress (unfold mbind, M_bind, mret, M_ret; cbn)).
    destruct (readFile P (Config.zipPath config) (world this)) as [e|content];
      [done|].
    repeat (progress (unfold mbind, M_bind, mret, M_ret; cbn)).
    destruct (lambda_createFunction P lambda _ (world this)) as [[e|res] w];
      cbn; by rewrite <- app_assoc.
Qed.

End ComponentMore.

(** ** [publishVersion] and [remove] *)
Section LifecycleFacts.
Import Js AwsLambda Lifecycle Support.
Context {W : Type} (P : Platform W) (X : Extension W).

(** X15: [publishVersion] never throws and leaves [this.state] alone.  It
    answers the version the backend gave; once the backend rejected the
    call it answers the empty string, the error being written to
    [console.error] only. *)
Theorem publishVersion_never_throws this :
  let name := Outputs.name <$> state this in
  let lambda := {| Aws.region := Outputs.region <$> state this;
                   Aws.maxRetries := 10 |} in
  let params := {| PublishVersion.FunctionName := name;
                   PublishVersion.CodeSha256 := Outputs.hash <$> state this |} in
  let run := publishVersion X this in
  state run.2 = state this
  ∧ match lambda_publishVersion X lambda params (world this) with
    | (inr Version, w) => run.1 = Return Version ∧ world run.2 = w
    | (inl e, w) =>
        run.1 = Return ""
        ∧ world run.2
          = console_error X ("Error publishing " +:+ text_of name +:+ " - "
                             +:+ stack_or_text X e) w
    end.
Proof.
  intros name lambda params run. subst run name lambda params.
  unfold publishVersion, try_catch, perform, get_state.
  repeat (progress (unfold mbind, M_bind, mret, M_ret; cbn)).
  by destruct (lambda_publishVersion X _ _ (world this)) as [[e|Version] w].
Qed.

Lemma remove_cases this :
  match remove P X this with
  | (Return (Some outputs), final) =>
      state this = Some outputs ∧ Outputs.name outputs ≠ ""
      ∧ state final = None
      ∧ ∃ w events,
          world final = save P None w
          ∧ log final = log this ++ events ++ [Save None]
          ∧ Forall (λ ev, ∀ s, ev ≠ Save s) events
  | (Return None, final) =>
      truthy (Outputs.name <$> state this) = None
      ∧ final = {| world := world this; state := state this;
                   log := log this ++ aborting_events |}
  | (Throw e, final) =>
      state final = state this
      ∧ ∃ events, log final = log this ++ events
                  ∧ Forall (λ ev, ∀ s, ev ≠ Save s) events
  | (OutOfFuel, final) => False
  end.
Proof.
  unfold remove, status, debug, emit, get_state, set_state, deleteLambda,
    try_catch, call, perform.
  repeat (progress (unfold mbind, M_bind, mret, M_ret; cbn)).
  destruct (state this) as [outputs|] eqn:Hstate; cbn.
  2: { split; [done|]. unfold aborting_events. by rewrite <- app_assoc. }
  case_bool_decide as Hname; cbn.
  { split; [done|]. unfold aborting_events. by rewrite <- app_assoc. }
  repeat (progress (unfold mbind, M_bind, mret, M_ret; cbn)).
  destruct (load P "@serverless/aws-iam-role" (world this)) as [[e|[]] w1]; cbn.
  { split; [done|]. eexists. rewrite <- !app_assoc. split; [done|].
    by repeat constructor. }
  destruct (load P "@serverless/aws-lambda-layer" w1) as [[e|[]] w2]; cbn.
  { split; [done|]. eexists. rewrite <- !app_assoc. split; [done|].
    by repeat constructor. }
  destruct (awsIamRole_remove X w2) as [[e|[]] w3]; cbn.
  { split; [done|]. eexists. rewrite <- !app_assoc. split; [done|].
    by repeat constructor. }
  destruct (layer_remove X w3) as [[e|[]] w4]; cbn.
  { split; [done|]. eexists. rewrite <- !app_assoc. split; [done|].
    by repeat constructor. }
  assert (Hshape : ∀ (l : list event) a b c d e f g,
            ((((((l ++ [a]) ++ [b]) ++ [c]) ++ [d]) ++ [e]) ++ [f]) ++ [g]
            = l ++ [a; b; c; d; e; f] ++ [g])
    by (intros; by rewrite <- !app_assoc).
  destruct (lambda_deleteFunction P _ (Outputs.name outputs) w4) as [[e|[]] w5]; cbn.
  - case_bool_decide as Hcode; cbn.
    + split; [done|]. eexists. rewrite <- !app_assoc. split; [done|].
      by repeat constructor.
    + split_and!; [done..|]. eexists _, _. split; [done|].
      split; [apply Hshape|]. by repeat constructor.
  - split_and!; [done..|]. eexists _, _. split; [done|].
    split; [apply Hshape|]. by repeat constructor.
Qed.

(** X16: [remove] empties [this.state] at its end only and calls
    [this.save()] straight after.  A run that returns outputs returns
    those that were in the state, has emptied the state, and the save, the
    only one, is its last step.  A run returns nothing only when the state
    holds no usable name, having done nothing but report that.  A run that
    throws without having called [this.save()] has left [this.state] as it
    was, so the removal can be run again. *)
Theorem remove_settles this :
  let run := remove P X this in
  ∃ events,
    log run.2 = log this ++ events
    ∧ match run.1 with
      | Return (Some outputs) =>
          state this = Some outputs
          ∧ state run.2 = None
          ∧ (∃ before, events = before ++ [Save None]
                       ∧ Forall (λ ev, ∀ s, ev ≠ Save s) before)
          ∧ ∃ w, world run.2 = save P None w
      | Return None =>
          truthy (Outputs.name <$> state this) = None
          ∧ events = aborting_events
          ∧ world run.2 = world this ∧ state run.2 = state this
      | Throw e =>
          Forall (λ ev, ∀ s, ev ≠ Save s) events → state run.2 = state this
      | OutOfFuel => False
      end.
Proof.
  intros run. subst run. pose proof (remove_cases this) as Hcases.
  destruct (remove P X this) as [[[outputs|]|e|] final]; cbn; [| | |done].
  - destruct Hcases as (Hstate & _ & Hcleared & w & events & Hworld & Hlog & Hall).
    exists (events ++ [Save None]). split_and!; [done..| |by exists w].
    by exists events.
  - destruct Hcases as [Hname ->]. exists aborting_events. by split_and!.
  - destruct Hcases as (Hstate & events & Hlog & Hall). by exists events.
Qed.

(** X17: [remove] on a state that names a function.  The role and the
    layer components are removed first, then the function the state names
    is deleted in the region the state gives.  If the backend deletes it or
    does not know it, [remove] returns the outputs of the state, empties
    the state and saves; if the backend rejects the delete with any other
    error, [remove] throws that error with the state kept and unsaved,
    the role and the layer being removed already. *)
Theorem remove_deletes_recorded_function this outputs w1 w2 w3 w4 answer w5 :
  state this = Some outputs →
  Outputs.name outputs ≠ "" →
  load P "@serverless/aws-iam-role" (world this) = (inr tt, w1) →
  load P "@serverless/aws-lambda-layer" w1 = (inr tt, w2) →
  awsIamRole_remove X w2 = (inr tt, w3) →
  layer_remove X w3 = (inr tt, w4) →
  let name := Outputs.name outputs in
  let region := Outputs.region outputs in
  let lambda := {| Aws.region := Some region; Aws.maxRetries := 10 |} in
  lambda_deleteFunction P lambda name w4 = (answer, w5) →
  let removed :=
    (Return (Some outputs),
     {| world := save P None w5; state := None;
        log := log this ++ removing_events lambda name region
               ++ removed_events name region |}) in
  remove P X this
  = match answer with
    | inr _ => removed
    | inl e =>
        if bool_decide (exn_code e = Some "ResourceNotFoundException")
        then removed
        else (Throw e,
              {| world := w5; state := Some outputs;
                 log := log this ++ removing_events lambda name region |})
    end.
Proof.
  intros Hstate Hname Hrole Hlayer Hrole_removed Hlayer_removed name region lambda
    Hdelete removed.
  subst removed name region lambda.
  unfold remove, status, debug, emit, get_state, set_state, deleteLambda,
    try_catch, call, perform.
  repeat (progress (unfold mbind, M_bind, mret, M_ret; cbn)).
  rewrite Hstate. cbn. rewrite bool_decide_eq_false_2 by done. cbn.
  repeat (progress (unfold mbind, M_bind, mret, M_ret; cbn)).
  rewrite Hrole. cbn. rewrite Hlayer. cbn. rewrite Hrole_removed. cbn.
  rewrite Hlayer_removed. cbn. rewrite Hdelete. cbn.
  unfold removing_events, removed_events.
  destruct answer as [e|[]]; cbn.
  - case_bool_decide as Hcode.
    + rewrite bool_decide_eq_false_2 by done. cbn. by rewrite <- !app_assoc.
    + rewrite bool_decide_eq_true_2 by done. cbn. by rewrite <- !app_assoc.
  - by rewrite <- !app_assoc.
Qed.

(** X18: a second [remove] after one that went through does nothing: it
    finds no name in the emptied state, reports that and returns, with no
    component loaded, no call on the backend and no save. *)
Theorem remove_twice this outputs final :
  remove P X this = (Return (Some outputs), final) →
  remove P X final
  = (Return None,
     {| world := world final; state := None;
        log := log final ++ aborting_events |}).
Proof.
  intros Hrun. pose proof (remove_cases this) as Hcases. rewrite Hrun in Hcases.
  destruct Hcases as (_ & _ & Hcleared & _).
  pose proof (remove_cases final) as Hagain.
  unfold remove, status, debug, emit, get_state in *.
  revert Hagain.
  repeat (progress (unfold mbind, M_bind, mret, M_ret; cbn)).
  rewrite Hcleared. cbn. intros _. unfold aborting_events.
  by rewrite <- app_assoc.
Qed.

End LifecycleFacts.

(** ** Runs of the component on the simulated platforms *)
Section ScenariosMore.
Import Js AwsLambda Simulation Variants.

Ltac with_first_deployment platform settings this0 k :=
  let prepared := eval vm_compute in (default_prepare platform settings this0) in
  lazymatch prepared with
  | (Return (?lambda, ?config), ?this) =>
      let answer := eval vm_compute in
        (lambda_getFunctionConfiguration platform lambda (Config.name config)
           (world this)) in
      lazymatch answer with
      | (inl ?e, ?w1) =>
          let source := eval vm_compute in
            (code_source platform (Config.zipPath config) (Settings.bucket config)
               {| world := w1; state := state this;
                  log := log this
                         ++ [Call lambda (Aws.CallGetFunctionConfiguration
                                            (Config.name config));
                             Debug (creating_message config)] |}) in
          lazymatch source with
          | (Return ?Code, ?this2) =>
              let created := eval vm_compute in
                (lambda_createFunction platform lambda
                   (createLambda_params config Code) (world this2)) in
              lazymatch created with
              | (inr ?res, ?w3) => k lambda config this e w1 Code this2 res w3
              end
          end
      end
  end.

Lemma preparation_failure_is_local_witness :
  default platform 8 settings_missing (start fresh None)
  = (Throw (FsError "ENOENT" "/missing"),
     (default_prepare platform settings_missing (start fresh None)).2).
Proof.
  let prepared := eval vm_compute in
    (default_prepare platform settings_missing (start fresh None)) in
  lazymatch prepared with
  | (Throw ?e, ?this1) =>
      destruct (preparation_failure_is_local platform 8 settings_missing
                  (start fresh None) e this1) as (Hrun & _); [by vm_compute|]
  end.
  rewrite Hrun. by vm_compute.
Defined.

Lemma default_outputs_witness :
  ∃ outputs,
    (default platform 8 settings_renamed (after first_run)).1 = Return outputs
    ∧ Outputs.name outputs = "generated-id".
Proof.
  let run := eval vm_compute in
    (default platform 8 settings_renamed (after first_run)).1 in
  lazymatch run with
  | Return ?outputs =>
      exists outputs;
      destruct (default_outputs platform 8 settings_renamed (after first_run) outputs)
        as (Hname & _); [by vm_compute|]
  end.
  split; [by vm_compute|]. rewrite Hname. by vm_compute.
Defined.

Lemma first_deployment_ignores_readiness_witness :
  ∃ outputs final,
    default slow 200 settings (start fresh None) = (Return outputs, final)
    ∧ Outputs.arn outputs = Some "arn:aws:lambda:generated-id"
    ∧ baseline (world final) = Some outputs.
Proof.
  with_first_deployment slow settings (start fresh None)
    ltac:(fun lambda config this e w1 Code this2 res w3 =>
      let waited := eval vm_compute in
        (waitUntilReady slow 200 lambda (Config.name config) None
           (called lambda (Aws.CallCreateFunction (createLambda_params config Code))
                   w3 this2)) in
      lazymatch waited with
      | (Return false, ?this4) =>
          destruct (first_deployment_ignores_readiness slow 200 settings
                      (start fresh None) lambda config this e w1 Code this2 res w3
                      false this4)
            as (outputs & final & Hrun & Harn & _ & _ & Hworld & _);
            [by vm_compute..|]
      end).
  exists outputs, final. split_and!; [exact Hrun|exact Harn|].
  by rewrite Hworld.
Defined.

Lemma rejected_poll_leaves_creation_unrecorded_witness :
  ∃ final,
    default outage 8 settings (start fresh None) = (Throw unavailable, final)
    ∧ is_Some (function (world final))
    ∧ state final = None.
Proof.
  with_first_deployment outage settings (start fresh None)
    ltac:(fun lambda config this e w1 Code this2 res w3 =>
      let polled := eval vm_compute in
        (lambda_getFunction outage lambda (Config.name config) w3) in
      lazymatch polled with
      | (inl ?e', ?w4) =>
          destruct (rejected_poll_leaves_creation_unrecorded outage 7 settings
                      (start fresh None) lambda config this e w1 Code this2 res w3
                      e' w4)
            as (final & Hrun & Hworld & Hstate & _); [by vm_compute..|]
      end).
  exists final. split_and!; [exact Hrun| |exact Hstate].
  rewrite Hworld. by eexists.
Defined.

Lemma remove_deletes_recorded_function_witness :
  let run := Lifecycle.remove platform extension (after first_run) in
  run.1 = Return (state first_run.2)
  ∧ function (world run.2) = None
  ∧ baseline (world run.2) = None
  ∧ state run.2 = None.
Proof.
  intros run. subst run.
  let recorded := eval vm_compute in (state (after first_run)) in
  lazymatch recorded with
  | Some ?outputs =>
      let w := eval vm_compute in (world (after first_run)) in
      let deleted := eval vm_compute in
        (lambda_deleteFunction platform
           {| Aws.region := Some (Outputs.region outputs); Aws.maxRetries := 10 |}
           (Outputs.name outputs) w) in
      lazymatch deleted with
      | (?answer, ?w5) =>
          pose proof (remove_deletes_recorded_function platform extension
                        (after first_run) outputs w w w w answer w5) as Hrun
      end
  end.
  cbv zeta in Hrun.
  rewrite !Hrun by (by vm_compute). clear Hrun.
  vm_compute. split_and!; reflexivity.
Defined.

Lemma remove_twice_witness :
  ∃ outputs final,
    Lifecycle.remove platform extension (after first_run)
    = (Return (Some outputs), final)
    ∧ (Lifecycle.remove platform extension final).1 = Return None.
Proof.
  let run := eval vm_compute in
    (Lifecycle.remove platform extension (after first_run)) in
  lazymatch run with
  | (Return (Some ?outputs), ?final) =>
      exists outputs, final; split; [by vm_compute|];
      rewrite (remove_twice platform extension (after first_run) outputs final);
      [done|by vm_compute]
  end.
Defined.

Lemma default_saves_what_it_returns_witness :
  (default platform 8 settings_missing (start fresh None)).1
  = Throw (FsError "ENOENT" "/missing")
  ∧ state (default platform 8 settings_missing (start fresh None)).2 = None.
Proof.
  split; [reflexivity|].
  pose proof (default_saves_what_it_returns platform 8 settings_missing
                (start fresh None)) as Hrun.
  cbv zeta in Hrun. destruct Hrun as (events & Hlog & Hstate).
  replace (default platform 8 settings_missing (start fresh None)).1
    with (Throw (A := Outputs.t) (FsError "ENOENT" "/missing")) in Hstate
    by reflexivity.
  apply Hstate. vm_compute in Hlog. subst events.
  repeat constructor; intros s; discriminate.
Defined.

Lemma remove_settles_witness :
  (Lifecycle.remove platform extension_denied (after first_run)).1 = Throw denied
  ∧ state (Lifecycle.remove platform extension_denied (after first_run)).2
    = state first_run.2.
Proof.
  split; [reflexivity|].
  pose proof (remove_settles platform extension_denied (after first_run)) as Hrun.
  cbv zeta in Hrun. destruct Hrun as (events & Hlog & Hstate).
  replace (Lifecycle.remove platform extension_denied (after first_run)).1
    with (Throw (A := option Outputs.t) denied) in Hstate by reflexivity.
  apply Hstate. vm_compute in Hlog. subst events.
  repeat constructor; intros s; discriminate.
Defined.


End ScenariosMore.
